(** * flask_shadowsession: a shallow embedding of the shadow-session classes

    The development follows [flask_shadowsession/flask_shadowsession.py]:
    - [Redis]: the key-value store the extension talks to (the commands
      the source issues, with the replies of a Redis server);
    - the program state: one [ShadowSession] together with its [shadow]
      attribute (a [ShadowSessionDict]) and the store both refer to;
    - [SecureCookieSession] and [RedisDict]: the two base classes, as far
      as the source relies on them;
    - [ShadowSessionDict], [ShadowSession], [ShadowSessionInterface]: the
      three classes of the module, method by method.

    Values (cookie fields, hash fields) are modelled by their serialised
    text. *)

From Stdlib Require Import ZArith String.
From stdpp Require Import gmap strings list fin_maps.

Open Scope string_scope.
Open Scope list_scope.
Open Scope Z_scope.

(** ** The store *)

Module Redis.

(** What a key holds: a plain string ([SETNX k 1]) or a hash. *)
Inductive rvalue :=
| RString (s : string)
| RHash (h : gmap string string).

(** A stored entry and its time to live in seconds, if one was set.  The
    model has no clock: a TTL is recorded, the expiry itself is the
    store's business between two requests. *)
Record entry := Entry { content : rvalue; ttl : option Z }.

Abbreviation db := (gmap string entry).

Inductive command :=
| SETNX (k v : string)
| EXISTS (k : string)
| DEL (k : string)
| RENAMENX (old new : string)
| EXPIRE (k : string) (secs : Z)
| HGET (k f : string)
| HSET (k f v : string)
| HDEL (k f : string)
| HEXISTS (k f : string)
| HLEN (k : string).

Inductive reply :=
| RInt (n : Z)
| RBulk (s : option string)
| RError (msg : string).

Definition bool_reply (b : bool) : reply := RInt (if b then 1 else 0).

Definition wrongtype : reply :=
  RError "WRONGTYPE Operation against a key holding the wrong kind of value".

(** One command against the database: the new database and the reply. *)
Definition exec (c : command) (d : db) : db * reply :=
  match c with
  | SETNX k v =>
      match d !! k with
      | Some _ => (d, RInt 0)
      | None => (<[k := Entry (RString v) None]> d, RInt 1)
      end
  | EXISTS k => (d, bool_reply (bool_decide (is_Some (d !! k))))
  | DEL k => (delete k d, bool_reply (bool_decide (is_Some (d !! k))))
  | RENAMENX old new =>
      match d !! old with
      | None => (d, RError "ERR no such key")
      | Some e =>
          match d !! new with
          | Some _ => (d, RInt 0)
          | None => (<[new := e]> (delete old d), RInt 1)
          end
      end
  | EXPIRE k secs =>
      match d !! k with
      | None => (d, RInt 0)
      | Some e => (<[k := Entry (content e) (Some secs)]> d, RInt 1)
      end
  | HGET k f =>
      match d !! k with
      | None => (d, RBulk None)
      | Some (Entry (RHash h) _) => (d, RBulk (h !! f))
      | Some (Entry (RString _) _) => (d, wrongtype)
      end
  | HSET k f v =>
      match d !! k with
      | None => (<[k := Entry (RHash {[f := v]}) None]> d, RInt 1)
      | Some (Entry (RHash h) t) =>
          (<[k := Entry (RHash (<[f := v]> h)) t]> d,
           bool_reply (bool_decide (h !! f = None)))
      | Some (Entry (RString _) _) => (d, wrongtype)
      end
  | HDEL k f =>
      match d !! k with
      | None => (d, RInt 0)
      | Some (Entry (RHash h) t) =>
          let h' := delete f h in
          ((if bool_decide (h' = ∅) then delete k d
            else <[k := Entry (RHash h') t]> d),
           bool_reply (bool_decide (is_Some (h !! f))))
      | Some (Entry (RString _) _) => (d, wrongtype)
      end
  | HEXISTS k f =>
      match d !! k with
      | None => (d, RInt 0)
      | Some (Entry (RHash h) _) => (d, bool_reply (bool_decide (is_Some (h !! f))))
      | Some (Entry (RString _) _) => (d, wrongtype)
      end
  | HLEN k =>
      match d !! k with
      | None => (d, RInt 0)
      | Some (Entry (RHash h) _) => (d, RInt (Z.of_nat (size h)))
      | Some (Entry (RString _) _) => (d, wrongtype)
      end
  end.

(** A pipeline: the queued commands run in order, every one of them, and
    the replies come back together. *)
Fixpoint exec_all (cs : list command) (d : db) : db * list reply :=
  match cs with
  | [] => (d, [])
  | c :: cs' =>
      let '(d1, r) := exec c d in
      let '(d2, rs) := exec_all cs' d1 in
      (d2, r :: rs)
  end.

Definition is_error (r : reply) : bool :=
  match r with RError _ => true | _ => false end.

(** The first error among the replies of a pipeline, if any. *)
Definition first_error (rs : list reply) : option string :=
  match filter (fun r => is_error r = true) rs with
  | RError msg :: _ => Some msg
  | _ => None
  end.

(** What the program sent to the store, in order. *)
Inductive io :=
| Cmd (c : command)
| Pipeline (cs : list command).

End Redis.

Export Redis.

(** ** Program state *)

(** Python exceptions the code raises or lets through. *)
Inductive exn :=
| TypeError
| ValueError (msg : string)
| KeyError (name : string)
| AttributeError
| DataError
| ResponseError (msg : string).

Inductive result (A : Type) :=
| Ok (a : A)
| Raise (e : exn).
Arguments Ok {A} a.
Arguments Raise {A} e.

(** One [ShadowSession] object, the [ShadowSessionDict] it owns as
    [self.shadow], and the world around them.  The two objects refer to
    each other ([session.shadow], [shadow.session]), so they live in one
    record and every method is a transition on it. *)
Record state := State {
  (* ShadowSession: the inherited cookie-side mapping and its flag
     (Flask keeps [permanent] inside the mapping, under "_permanent") *)
  cookie : gmap string string;
  modified : bool;
  (* ShadowSessionDict, i.e. session.shadow *)
  session : bool;             (* self.session: the owning session, or None *)
  accessed : bool;
  redis : bool;               (* self.redis: a Redis client, or None *)
  key : option string;
  max_age : option Z;
  (* the world *)
  store : gmap string entry;  (* contents of the Redis server *)
  trace : list io;            (* everything sent to the server so far *)
  entropy : nat -> string;    (* what the key generator will draw *)
  drawn : nat                 (* how many keys were drawn so far *)
}.

Definition set_cookie (c : gmap string string) (st : state) : state :=
  State c (modified st) (session st) (accessed st) (redis st)
        (key st) (max_age st) (store st) (trace st) (entropy st) (drawn st).
Definition set_modified (b : bool) (st : state) : state :=
  State (cookie st) b (session st) (accessed st) (redis st)
        (key st) (max_age st) (store st) (trace st) (entropy st) (drawn st).
Definition set_session (b : bool) (st : state) : state :=
  State (cookie st) (modified st) b (accessed st) (redis st)
        (key st) (max_age st) (store st) (trace st) (entropy st) (drawn st).
Definition set_accessed (b : bool) (st : state) : state :=
  State (cookie st) (modified st) (session st) b (redis st)
        (key st) (max_age st) (store st) (trace st) (entropy st) (drawn st).
Definition set_redis (b : bool) (st : state) : state :=
  State (cookie st) (modified st) (session st) (accessed st) b
        (key st) (max_age st) (store st) (trace st) (entropy st) (drawn st).
Definition set_key (k : option string) (st : state) : state :=
  State (cookie st) (modified st) (session st) (accessed st)
        (redis st) k (max_age st) (store st) (trace st) (entropy st) (drawn st).
Definition set_max_age (m : option Z) (st : state) : state :=
  State (cookie st) (modified st) (session st) (accessed st)
        (redis st) (key st) m (store st) (trace st) (entropy st) (drawn st).
Definition set_store (d : gmap string entry) (st : state) : state :=
  State (cookie st) (modified st) (session st) (accessed st)
        (redis st) (key st) (max_age st) d (trace st) (entropy st) (drawn st).
Definition set_trace (t : list io) (st : state) : state :=
  State (cookie st) (modified st) (session st) (accessed st)
        (redis st) (key st) (max_age st) (store st) t (entropy st) (drawn st).
Definition set_drawn (n : nat) (st : state) : state :=
  State (cookie st) (modified st) (session st) (accessed st)
        (redis st) (key st) (max_age st) (store st) (trace st) (entropy st) n.

(** [session.permanent], the getter of Flask's [SessionMixin]:
    [self.get("_permanent", False)], read as a flag.  The values of the
    mapping are strings here; the booleans are "True" and "False". *)
Definition permanent (st : state) : bool :=
  bool_decide (cookie st !! "_permanent" = Some "True").

(** A method: it runs on a state, returns or raises, and leaves a state
    behind.  An exception keeps the mutations made before it. *)
Definition M (A : Type) : Type := state -> result A * state.

Definition ret {A} (a : A) : M A := fun st => (Ok a, st).
Definition raise {A} (e : exn) : M A := fun st => (Raise e, st).
Definition bind {A B} (m : M A) (k : A -> M B) : M B :=
  fun st =>
    match m st with
    | (Ok a, st1) => k a st1
    | (Raise e, st1) => (Raise e, st1)
    end.
Definition get_state : M state := fun st => (Ok st, st).
Definition modify (f : state -> state) : M unit := fun st => (Ok tt, f st).

Notation "x <- m ;; k" := (bind m (fun x => k))
  (at level 100, m at next level, right associativity).
Notation "m ;;; k" := (bind m (fun _ => k))
  (at level 100, right associativity).

(** ** Calls on the Redis client *)

Definition truthy (r : reply) : bool :=
  match r with
  | RInt n => negb (n =? 0)
  | RBulk s => bool_decide (is_Some s)
  | RError _ => false
  end.

(** A command called directly on [self.redis]: sent at once; an error
    reply is raised as an exception. *)
Definition call (c : command) : M reply :=
  fun st =>
    if redis st then
      let '(d, r) := exec c (store st) in
      let st1 := set_store d (set_trace (trace st ++ [Cmd c]) st) in
      match r with
      | RError msg => (Raise (ResponseError msg), st1)
      | _ => (Ok r, st1)
      end
    else (Raise AttributeError, st).

(** [p = self.redis.pipeline()] queues commands and sends nothing. *)
Definition pipeline : M (list command) :=
  fun st => if redis st then (Ok [], st) else (Raise AttributeError, st).

(** [p.execute()]: the queue is sent as one batch; all of it runs, and the
    first error reply, if any, is raised afterwards. *)
Definition execute (p : list command) : M (list reply) :=
  fun st =>
    let '(d, rs) := exec_all p (store st) in
    let st1 := set_store d (set_trace (trace st ++ [Pipeline p]) st) in
    match first_error rs with
    | Some msg => (Raise (ResponseError msg), st1)
    | None => (Ok rs, st1)
    end.

(** A key handed to the client must not be [None]: the client refuses to
    encode it before anything is sent. *)
Definition self_key : M string :=
  fun st =>
    match key st with
    | Some k => (Ok k, st)
    | None => (Raise DataError, st)
    end.

(** ** SecureCookieSession: the inherited cookie-side mapping

    A dict that sets [modified] on every update.  (Its [accessed] flag,
    which only drives the Vary header, is not tracked.) *)
Module SecureCookieSession.

Definition __getitem__ (name : string) : M string :=
  fun st =>
    match cookie st !! name with
    | Some v => (Ok v, st)
    | None => (Raise (KeyError name), st)
    end.

Definition __setitem__ (name value : string) : M unit :=
  modify (fun st => set_modified true (set_cookie (<[name := value]> (cookie st)) st)).

Definition __delitem__ (name : string) : M unit :=
  fun st =>
    match cookie st !! name with
    | Some _ => (Ok tt, set_modified true (set_cookie (delete name (cookie st)) st))
    | None => (Raise (KeyError name), st)
    end.

Definition __contains__ (name : string) : M bool :=
  fun st => (Ok (bool_decide (is_Some (cookie st !! name))), st).

Definition get (name : string) : M (option string) :=
  fun st => (Ok (cookie st !! name), st).

(** [pop(name, *args)]: [args] is empty or holds the default. *)
Definition pop (name : string) (args : option string) : M string :=
  fun st =>
    match cookie st !! name, args with
    | Some v, _ => (Ok v, set_modified true (set_cookie (delete name (cookie st)) st))
    | None, Some dflt => (Ok dflt, st)
    | None, None => (Raise (KeyError name), st)
    end.

End SecureCookieSession.

(** ** RedisDict: the base class of the shadow dictionary

    [flask_redisdict.RedisDict] reflects item access to a Redis hash stored
    under [self.key].  The package is a dependency of the module, not a
    part of it; the model keeps to what the subclass relies on: item
    methods that map to HGET, HSET, HDEL, HEXISTS and HLEN on [self.key],
    [exists()] and [delete()] that map to EXISTS and DEL, a
    [_check_state()] that refuses to work without a client, and a key
    generator.  The item methods first call [self._check_state()], which
    Python dispatches to the subclass; here the override is a section
    variable. *)
Module RedisDict.

Section Items.
Variable _check_state : M unit.

Definition __getitem__ (name : string) : M string :=
  _check_state ;;;
  k <- self_key ;;
  r <- call (HGET k name) ;;
  match r with
  | RBulk (Some v) => ret v
  | _ => raise (KeyError name)
  end.

Definition __setitem__ (name value : string) : M unit :=
  _check_state ;;;
  k <- self_key ;;
  call (HSET k name value) ;;;
  ret tt.

Definition __delitem__ (name : string) : M unit :=
  _check_state ;;;
  k <- self_key ;;
  call (HDEL k name) ;;;
  ret tt.

Definition __contains__ (name : string) : M bool :=
  _check_state ;;;
  k <- self_key ;;
  r <- call (HEXISTS k name) ;;
  ret (truthy r).

Definition __len__ : M Z :=
  _check_state ;;;
  k <- self_key ;;
  r <- call (HLEN k) ;;
  ret (match r with RInt n => n | _ => 0 end).
End Items.

(** [pop(name, *args)] goes through [self[name]] and [del self[name]],
    again as the subclass defines them. *)
Section Pop.
Variable getitem : string -> M string.
Variable delitem : string -> M unit.

Definition pop (name : string) (args : option string) : M string :=
  fun st =>
    match getitem name st with
    | (Ok v, st1) => (delitem name ;;; ret v) st1
    | (Raise (KeyError n), st1) =>
        match args with
        | Some dflt => (Ok dflt, st1)
        | None => (Raise (KeyError n), st1)
        end
    | (Raise e, st1) => (Raise e, st1)
    end.
End Pop.

(** [exists()] and [delete()] of the base class. *)
Definition exists_ : M bool :=
  k <- self_key ;;
  r <- call (EXISTS k) ;;
  ret (truthy r).

Definition delete_ : M unit :=
  k <- self_key ;;
  call (DEL k) ;;;
  ret tt.

Definition _check_state : M unit :=
  fun st =>
    if redis st then (Ok tt, st)
    else (Raise (ValueError "redis instance must be set prior"), st).

(** [_generate_key()]: the next key of the random source. *)
Definition _generate_key : M string :=
  fun st => (Ok (entropy st (drawn st)), set_drawn (S (drawn st)) st).

End RedisDict.

(** ** ShadowSessionDict *)

Definition SHADOW_KEY_NAME : string := "shadow_key".

(** Arguments handed to [open_session]: the session that owns this shadow,
    a Redis client, [None], or an object of some other class. *)
Inductive pyobj :=
| PyNone
| PyShadowSession
| PyRedis
| PyObject (cls : string).

Definition isinstance_ShadowSession (o : pyobj) : bool :=
  match o with PyShadowSession => true | _ => false end.

Definition isinstance_Redis (o : pyobj) : bool :=
  match o with PyRedis => true | _ => false end.

(** The two overridable hooks.  Each receives the pipeline [p] and may
    queue commands on it; the base class queues none. *)
Class Hooks := {
  _on_create_hash : state -> list command;
  _on_save_session : state -> list command
}.

Definition base_hooks : Hooks :=
  {| _on_create_hash := fun _ => []; _on_save_session := fun _ => [] |}.

(** [repr(self)] is inherited from [RedisDict], whose code is not part of
    the module: a parameter of the model.  [open_session] evaluates it
    when it formats the message of its [TypeError]. *)
Class Inherited := { __repr__ : M string }.

(** A [repr] that refuses to work on a record without a client, with the
    error of [RedisDict._check_state], and reads nothing else.  This is
    what tests/test_shadowsession.py::test_session_redis_none sees of the
    inherited one: opening a new session with no client configured ends
    in ValueError "redis instance must be set prior". *)
#[global] Instance checking_repr : Inherited :=
  {| __repr__ := RedisDict._check_state ;;; ret "ShadowSessionDict" |}.

Definition generation_exhausted : exn :=
  ValueError "Failed to generate unique shadow session key in 100 attempts.".

Module ShadowSessionDict.

Section Methods.
Context {hooks : Hooks} {inherited : Inherited}.

(** The two error messages are f-strings that hold [{self!r}]: the
    record's [repr] runs before [TypeError] is raised, and an exception
    it raises takes the place of the [TypeError]. *)
Definition open_session (session_ redis_ : pyobj) (max_age_ : option Z) : M unit :=
  if negb (isinstance_ShadowSession session_) then
    __repr__ ;;; raise TypeError
  else if negb (isinstance_Redis redis_) then
    __repr__ ;;; raise TypeError
  else
    modify (set_session true) ;;;
    modify (set_accessed false) ;;;
    modify (set_redis true) ;;;
    k <- SecureCookieSession.get SHADOW_KEY_NAME ;;
    modify (set_key k) ;;;
    modify (set_max_age max_age_).

Definition save_session : M unit :=
  st <- get_state ;;
  match accessed st, key st with
  | true, Some k =>
      p <- pipeline ;;
      let p := p ++ _on_save_session st in
      let p := match max_age st with
               | Some m => p ++ [EXPIRE k m]
               | None => p
               end in
      execute p ;;;
      ret tt
  | _, _ => ret tt
  end.

(** The loop of [_create_hash]: [n] iterations left, [reserve_key] as
    the previous iteration left it.  Returns [new_key] and
    [reserve_key] as they are when the loop is over. *)
Fixpoint attempts (n : nat) (reserve_key : option string)
  : M (option string * option string) :=
  match n with
  | O => ret (None, reserve_key)
  | S n' =>
      possible_key <- RedisDict._generate_key ;;
      let reserve_key := possible_key +:+ "-reserved" in
      r <- call (SETNX reserve_key "1") ;;
      if truthy r then
        e <- call (EXISTS possible_key) ;;
        if negb (truthy e) then ret (Some possible_key, Some reserve_key)
        else call (DEL reserve_key) ;;; attempts n' (Some reserve_key)
      else
        attempts n' None
  end.

(** [self.session[name] = value] and friends, for a name outside the
    forced fields: the owner's inherited item methods ([session_items]
    below shows that this is what [ShadowSession] does for
    [SHADOW_KEY_NAME]). *)
Definition owner {A} (m : M A) : M A :=
  fun st => if session st then m st else (Raise TypeError, st).

(** The second half of [_create_hash], from [p = self.redis.pipeline()]
    on, once the loop has left [new_key] and [reserve_key]. *)
Definition commit (new_key : string) (reserve_key : option string) : M string :=
  p <- pipeline ;;
  st <- get_state ;;
  p <- match key st with
       | None =>
           modify (set_key (Some new_key)) ;;;
           st1 <- get_state ;;
           ret (p ++ _on_create_hash st1)
       | Some old =>
           modify (set_key (Some new_key)) ;;;
           ret (p ++ [RENAMENX old new_key])
       end ;;
  let p := match max_age st with
           | Some m => p ++ [EXPIRE new_key m]
           | None => p
           end in
  let p := match reserve_key with
           | Some rk => p ++ [DEL rk]
           | None => p
           end in
  execute p ;;;
  owner (SecureCookieSession.__setitem__ SHADOW_KEY_NAME new_key) ;;;
  ret new_key.

Definition _create_hash : M string :=
  r <- attempts 100 None ;;
  let '(new_key, reserve_key) := r in
  match new_key with
  | None => raise generation_exhausted
  | Some new_key => commit new_key reserve_key
  end.

Definition regenerate_key : M string := _create_hash.

Definition _check_state : M unit :=
  RedisDict._check_state ;;;
  st <- get_state ;;
  match key st with
  | None => k <- _create_hash ;; modify (set_key (Some k))
  | Some _ => ret tt
  end.

(** [self.accessed = True; self.session.modified = True] *)
Definition touch : M unit :=
  modify (set_accessed true) ;;;
  fun st => if session st then (Ok tt, set_modified true st)
            else (Raise AttributeError, st).

Definition __getitem__ (name : string) : M string :=
  touch ;;; RedisDict.__getitem__ _check_state name.

Definition __setitem__ (name value : string) : M unit :=
  touch ;;; RedisDict.__setitem__ _check_state name value.

Definition __delitem__ (name : string) : M unit :=
  touch ;;; RedisDict.__delitem__ _check_state name.

(** Inherited unchanged. *)
Definition __contains__ (name : string) : M bool :=
  RedisDict.__contains__ _check_state name.

Definition __len__ : M Z := RedisDict.__len__ _check_state.

Definition pop (name : string) (args : option string) : M string :=
  RedisDict.pop __getitem__ __delitem__ name args.

Definition exists_ : M bool :=
  rv <- RedisDict.exists_ ;;
  (if negb rv then
     has <- owner (SecureCookieSession.__contains__ SHADOW_KEY_NAME) ;;
     if has then owner (SecureCookieSession.__delitem__ SHADOW_KEY_NAME)
     else ret tt
   else ret tt) ;;;
  (if negb rv then modify (set_key None) else ret tt) ;;;
  ret rv.

Definition delete_ : M unit :=
  RedisDict.delete_ ;;;
  has <- owner (SecureCookieSession.__contains__ SHADOW_KEY_NAME) ;;
  (if has then owner (SecureCookieSession.__delitem__ SHADOW_KEY_NAME)
   else ret tt) ;;;
  modify (set_key None).

End Methods.

End ShadowSessionDict.

(** ** ShadowSession *)

(** [_force_shadow_fields = frozenset(("_flashes",))] *)
Definition _force_shadow_fields : gset string := {[ "_flashes" ]}.

Module ShadowSession.

(** [__init__]: the cookie-side mapping starts from the decoded data and
    [self.shadow] is a new, unopened [ShadowSessionDict]. *)
Definition __init__ (data : gmap string string) (st : state) : state :=
  State data false
        false false false None None
        (store st) (trace st) (entropy st) (drawn st).

Section Methods.
Context {hooks : Hooks}.

Definition __getitem__ (name : string) : M string :=
  if bool_decide (name ∉ _force_shadow_fields)
  then SecureCookieSession.__getitem__ name
  else ShadowSessionDict.__getitem__ name.

Definition __setitem__ (name value : string) : M unit :=
  if bool_decide (name ∉ _force_shadow_fields)
  then SecureCookieSession.__setitem__ name value
  else ShadowSessionDict.__setitem__ name value.

Definition __delitem__ (name : string) : M unit :=
  if bool_decide (name ∉ _force_shadow_fields)
  then SecureCookieSession.__delitem__ name
  else ShadowSessionDict.__delitem__ name.

Definition __contains__ (name : string) : M bool :=
  if bool_decide (name ∉ _force_shadow_fields)
  then SecureCookieSession.__contains__ name
  else ShadowSessionDict.__contains__ name.

Definition pop (name : string) (args : option string) : M string :=
  if bool_decide (name ∉ _force_shadow_fields)
  then SecureCookieSession.pop name args
  else ShadowSessionDict.pop name args.

(** [session.permanent = value], the setter of Flask's [SessionMixin]:
    [self["_permanent"] = bool(value)], which Python dispatches to the
    [__setitem__] above. *)
Definition permanent_setter (value : bool) : M unit :=
  __setitem__ "_permanent" (if value then "True" else "False").

End Methods.

End ShadowSession.

(** ** ShadowSessionInterface *)

Record timedelta := { days : Z; seconds : Z; microseconds : Z }.

(** [flask.sessions.total_seconds] *)
Definition total_seconds (td : timedelta) : Z :=
  days td * 60 * 60 * 24 + seconds td.

Record Flask := { permanent_session_lifetime : timedelta }.

(** Python's [a or b] on an optional integer: [None] and [0] are false. *)
Definition or_ (a : option Z) (b : Z) : Z :=
  match a with
  | Some m => if m =? 0 then b else m
  | None => b
  end.

Module ShadowSessionInterface.

(** The class attribute [redis] and the instance attribute [max_age]. *)
Record t := { redis : pyobj; max_age : option Z }.

Section Methods.
Context {hooks : Hooks} {inherited : Inherited}.
(** The cookie collaborator: what [SecureCookieSessionInterface]
    decodes from a request, [None] or the data of a new
    [session_class] object; and its [save_session]. *)
Variable Request : Type.
Variable super_open_session : Flask -> Request -> option (gmap string string).
Variable super_save_session : Flask -> M unit.

Definition open_session (self : t) (app : Flask) (request : Request)
  : M (option pyobj) :=
  match super_open_session app request with
  | None => ret None
  | Some data =>
      modify (ShadowSession.__init__ data) ;;;
      ShadowSession.permanent_setter false ;;;
      let max_age := or_ (max_age self) (total_seconds (permanent_session_lifetime app)) in
      ShadowSessionDict.open_session PyShadowSession (redis self) (Some max_age) ;;;
      ret (Some PyShadowSession)
  end.

Definition save_session (self : t) (app : Flask) : M unit :=
  super_save_session app ;;;
  ShadowSessionDict.save_session.

End Methods.

End ShadowSessionInterface.

(** ** Example states *)

(** A generator that never repeats: "k", "kx", "kxx", ... *)
Fixpoint tally (n : nat) : string :=
  match n with
  | O => "k"
  | S n' => tally n' +:+ "x"
  end.

(** A generator that is stuck on one key. *)
Definition stuck (_ : nat) : string := "k".

(** An opened session with nothing in the cookie and an empty store. *)
Definition opened (gen : nat -> string) : state :=
  State ∅ false true false true None (Some 3600) ∅ [] gen O.

(** ** Reading the key-generation loop

    Names for what one iteration of the loop asks the store, to state
    what the loop as a whole does. *)

(** The reservation of candidate [c] against database [d]: the reply of
    [SETNX c-reserved 1], and of [EXISTS c] right after it. *)
Definition reserve_key_of (c : string) : string := c +:+ "-reserved".

Definition reservation_succeeds (d : gmap string entry) (c : string) : bool :=
  truthy (snd (exec (SETNX (reserve_key_of c) "1") d)).

Definition candidate_exists (d : gmap string entry) (c : string) : bool :=
  truthy (snd (exec (EXISTS c) (fst (exec (SETNX (reserve_key_of c) "1") d)))).

Definition accepted (d : gmap string entry) (c : string) : bool :=
  reservation_succeeds d c && negb (candidate_exists d c).

(** The first accepted candidate among [gen i], ..., [gen (i + n - 1)]. *)
Fixpoint search (d : gmap string entry) (gen : nat -> string) (i n : nat)
  : option string :=
  match n with
  | O => None
  | S n' => if accepted d (gen i) then Some (gen i) else search d gen (S i) n'
  end.

(** The attributes of the two objects, without the world. *)
Definition objects (st : state) :=
  (cookie st, modified st, permanent st, session st, accessed st,
   redis st, key st, max_age st, entropy st).

(** The marker a reservation leaves in the store. *)
Definition marker : entry := Entry (RString "1") None.

(** The pipeline of [_create_hash] as it is described: the on-create hook
    when there was no key, else the rename of the previous key if the new
    one is absent; then the expiry if [max_age] is set; then the removal
    of the reservation marker if one is held. *)
Definition described_pipeline {hooks : Hooks}
    (new_key : string) (reserve_key : option string) (st : state) : list command :=
  match key st with
  | None => _on_create_hash (set_key (Some new_key) st)
  | Some old => [RENAMENX old new_key]
  end
  ++ match max_age st with Some m => [EXPIRE new_key m] | None => [] end
  ++ match reserve_key with Some rk => [DEL rk] | None => [] end.

(** The pipeline of [save_session] as it is described. *)
Definition described_save_pipeline {hooks : Hooks} (k : string) (st : state)
  : list command :=
  _on_save_session st
  ++ match max_age st with Some m => [EXPIRE k m] | None => [] end.

(** A method keeps a relation between the state before and after it. *)
Definition preserves {A} (R : state -> state -> Prop) (m : M A) : Prop :=
  ∀ st, R st (snd (m st)).

(** ** Runs of operations on one record

    The operations of a request, and what an observer who only sees the
    calls, their results and the traffic to the store can tell about the
    record: whether a key was ever materialized for it, and whether the
    record was since found gone. *)
Inductive op :=
| OpOpen (m : option Z)
| OpGet (f : string)
| OpSet (f v : string)
| OpDel (f : string)
| OpExists
| OpDelete
| OpSave.

Definition run_op {hooks : Hooks} (o : op) : M (option bool) :=
  match o with
  | OpOpen m => ShadowSessionDict.open_session PyShadowSession PyRedis m ;;; ret None
  | OpGet f => ShadowSessionDict.__getitem__ f ;;; ret None
  | OpSet f v => ShadowSessionDict.__setitem__ f v ;;; ret None
  | OpDel f => ShadowSessionDict.__delitem__ f ;;; ret None
  | OpExists => b <- ShadowSessionDict.exists_ ;; ret (Some b)
  | OpDelete => ShadowSessionDict.delete_ ;;; ret None
  | OpSave => ShadowSessionDict.save_session ;;; ret None
  end.

Definition is_pipeline (x : io) : bool :=
  match x with Pipeline _ => true | Cmd _ => false end.

(** How many pipelines a trace holds.  Among the item methods only key
    creation sends one. *)
Fixpoint pipelines (t : list io) : nat :=
  match t with
  | [] => O
  | x :: t' => (if is_pipeline x then 1 else 0) + pipelines t'
  end%nat.

Record history := History {
  materialized : bool;   (* a key was loaded from the cookie or created *)
  lost : bool            (* the record was found gone since *)
}.

(** One observation.  With [by_delete] an explicit [delete()] counts as
    losing the record; without it only an [exists()] that answers false
    does. *)
Definition observe (by_delete : bool) (o : op) (pre : state)
    (out : result (option bool) * state) (h : history) : history :=
  match o, fst out with
  | OpOpen _, Ok _ =>
      History (bool_decide (is_Some (cookie pre !! SHADOW_KEY_NAME))) false
  | (OpGet _ | OpSet _ _ | OpDel _), _ =>
      if bool_decide (pipelines (trace (snd out)) = pipelines (trace pre))
      then h else History true false
  | OpExists, Ok (Some false) => History (materialized h) true
  | OpDelete, Ok _ => if by_delete then History (materialized h) true else h
  | _, _ => h
  end.

Fixpoint run {hooks : Hooks} (by_delete : bool) (os : list op)
    (st : state) (h : history) : state * history :=
  match os with
  | [] => (st, h)
  | o :: os' =>
      let out := run_op o st in
      run by_delete os' (snd out) (observe by_delete o st out h)
  end.

(** [key] is [None] exactly when no key was ever materialized or the
    record was found gone. *)
Definition key_invariant (st : state) (h : history) : Prop :=
  key st = None ↔ materialized h = false ∨ lost h = true.

(** A session object right after [ShadowSession()]. *)
Definition constructed (gen : nat -> string) : state :=
  ShadowSession.__init__ ∅ (opened gen).

(** ** Relations between a state and a later one *)

(** The cookie-side mapping is unchanged except, possibly, at
    "shadow_key". *)
Definition cookie_frame (st st' : state) : Prop :=
  ∀ f, f ≠ SHADOW_KEY_NAME → cookie st' !! f = cookie st !! f.

(** Either the key and the number of pipelines sent are unchanged, or
    there was no key, there is one now, and one more pipeline was sent. *)
Definition key_step (st st' : state) : Prop :=
  (key st' = key st ∧ pipelines (trace st') = pipelines (trace st))
  ∨ (key st = None ∧ is_Some (key st')
     ∧ pipelines (trace st') = S (pipelines (trace st))).

(** ** More example states and inputs *)

(** An interface whose explicit [max_age] is 0, and an application with
    Flask's default lifetime of 31 days. *)
Definition zero_override : ShadowSessionInterface.t :=
  {| ShadowSessionInterface.redis := PyRedis;
     ShadowSessionInterface.max_age := Some 0 |}.

Definition default_app : Flask :=
  {| permanent_session_lifetime := {| days := 31; seconds := 0; microseconds := 0 |} |}.

(** The cookie collaborator of the examples: every request decodes to an
    empty session. *)
Definition decode_empty (_ : Flask) (_ : unit) : option (gmap string string) :=
  Some ∅.

(** A run: open, write a field, delete. *)
Definition write_then_delete : list op :=
  [OpOpen (Some 3600); OpSet "a" "1"; OpDelete].

(** A record with a key and a stored field, as a second request finds it. *)
Definition stored : state :=
  State {[ "shadow_key" := "old" ]} false true false true
        (Some "old") (Some 3600)
        {[ "old" := Entry (RHash {[ "a" := "1" ]}) (Some 3600) ]} [] tally O.

(** The same record after a field was read. *)
Definition touched : state := set_accessed true stored.

(** A record whose key is no longer in the store. *)
Definition orphaned : state := set_store ∅ stored.

(** A record without a key whose generator is stuck on a key in use. *)
Definition crowded : state :=
  State ∅ false true false true None (Some 3600)
        {[ "k" := Entry (RHash {[ "a" := "1" ]}) None ]} [] stuck O.

(** ** The older module

    [src/flask_shadowsession.py] is the earlier version of the module.
    Its [exists()] and [delete()] remove "shadow_key" from the cookie-side
    session and leave [self.key] as it is; it has no [_check_state] of its
    own, so its item methods run the one of the base class, a section
    variable here. *)
Module Legacy.

Section Methods.
Variable _check_state : M unit.

Definition __getitem__ (name : string) : M string :=
  ShadowSessionDict.touch ;;; RedisDict.__getitem__ _check_state name.

Definition __setitem__ (name value : string) : M unit :=
  ShadowSessionDict.touch ;;; RedisDict.__setitem__ _check_state name value.

Definition __delitem__ (name : string) : M unit :=
  ShadowSessionDict.touch ;;; RedisDict.__delitem__ _check_state name.

Definition exists_ : M bool :=
  rv <- RedisDict.exists_ ;;
  (if negb rv then
     has <- ShadowSessionDict.owner (SecureCookieSession.__contains__ SHADOW_KEY_NAME) ;;
     if has then ShadowSessionDict.owner (SecureCookieSession.__delitem__ SHADOW_KEY_NAME)
     else ret tt
   else ret tt) ;;;
  ret rv.

Definition delete_ : M unit :=
  RedisDict.delete_ ;;;
  has <- ShadowSessionDict.owner (SecureCookieSession.__contains__ SHADOW_KEY_NAME) ;;
  if has then ShadowSessionDict.owner (SecureCookieSession.__delitem__ SHADOW_KEY_NAME)
  else ret tt.

End Methods.

End Legacy.

(** The flags a field access raises never go down again. *)
Definition flags_kept (st st' : state) : Prop :=
  (accessed st = true → accessed st' = true)
  ∧ (modified st = true → modified st' = true).

(** A cookie collaborator whose [save_session] writes to the response
    only. *)
Definition save_cookie_only (_ : Flask) : M unit := ret tt.

(** An interface with a store handle and no explicit [max_age]. *)
Definition plain_interface : ShadowSessionInterface.t :=
  {| ShadowSessionInterface.redis := PyRedis;
     ShadowSessionInterface.max_age := None |}.


(** * Properties *)

(** ** Strings and the store *)

Lemma length_append (s t : string) :
  String.length (s +:+ t) = (String.length s + String.length t)%nat.
Proof. induction s as [|a s IH]; simpl; [done | by rewrite IH]. Qed.

Lemma reserve_key_ne c : reserve_key_of c ≠ c.
Proof.
  unfold reserve_key_of. intros H.
  apply (f_equal String.length) in H. rewrite length_append in H. simpl in H. lia.
Qed.

Lemma accepted_spec d c :
  accepted d c = true ↔ d !! reserve_key_of c = None ∧ d !! c = None.
Proof.
  unfold accepted, reservation_succeeds, candidate_exists. simpl.
  destruct (d !! reserve_key_of c) eqn:Hr; simpl.
  - split; [discriminate | intros [? _]; discriminate].
  - rewrite lookup_insert_ne by apply reserve_key_ne.
    destruct (d !! c) eqn:Hc; simpl.
    + split; [discriminate | intros [_ ?]; discriminate].
    + done.
Qed.

Lemma accepted_false d c :
  ¬ (d !! reserve_key_of c = None ∧ d !! c = None) → accepted d c = false.
Proof.
  intros H. destruct (accepted d c) eqn:E; [|done].
  apply accepted_spec in E. contradiction.
Qed.

Section Loop.
Context {hooks : Hooks}.

Lemma attempts_spec n : ∀ rk st, redis st = true →
∃ rk' st',
  ShadowSessionDict.attempts n rk st
    = (Ok (search (store st) (entropy st) (drawn st) n, rk'), st') ∧
  objects st' = objects st ∧
  (drawn st ≤ drawn st' ≤ drawn st + n)%nat ∧
  (∃ cmds, trace st' = trace st ++ (Cmd <$> cmds)) ∧
  match search (store st) (entropy st) (drawn st) n with
  | Some c => rk' = Some (reserve_key_of c)
              ∧ store st' = <[reserve_key_of c := marker]> (store st)
  | None => store st' = store st
  end.
Proof.
induction n as [|n IH]; intros rk st Hr.
- exists rk, st. simpl. repeat split; try lia. exists []. by rewrite app_nil_r.
- cbn [ShadowSessionDict.attempts search].
  unfold bind at 1. unfold RedisDict._generate_key.
  set (c := entropy st (drawn st)).
  unfold bind at 1. unfold call at 1. simpl. rewrite Hr.
  change (c +:+ "-reserved") with (reserve_key_of c).
  destruct (store st !! reserve_key_of c) as [e|] eqn:Hres; simpl.
  + rewrite accepted_false by (intros [? _]; congruence).
    match goal with |- context [ShadowSessionDict.attempts n None ?s] =>
      destruct (IH None s) as (rk' & st' & Heq & Hobj & Hdr & [cmds Htr] & Hst);
      [done|] end.
    simpl in *. exists rk', st'. rewrite Heq. repeat split; try done; try lia.
    exists (SETNX (reserve_key_of c) "1" :: cmds).
    rewrite Htr, <- app_assoc. done.
  + unfold bind at 1. unfold call at 1. simpl. rewrite Hr.
    rewrite lookup_insert_ne by apply reserve_key_ne.
    destruct (store st !! c) as [e|] eqn:Hc; simpl.
    * rewrite accepted_false by (intros [_ ?]; congruence).
      unfold bind at 1. unfold call at 1. simpl. rewrite Hr.
      rewrite delete_insert_id by done.
      match goal with |- context [ShadowSessionDict.attempts n _ ?s] =>
        destruct (IH (Some (reserve_key_of c)) s)
          as (rk' & st' & Heq & Hobj & Hdr & [cmds Htr] & Hst); [done|] end.
      simpl in *. exists rk', st'. rewrite Heq. repeat split; try done; try lia.
      exists (SETNX (reserve_key_of c) "1" :: EXISTS c :: DEL (reserve_key_of c) :: cmds).
      rewrite Htr, <- !app_assoc. done.
    * assert (Ha : accepted (store st) c = true) by (by apply accepted_spec).
      rewrite Ha. eexists _, _. split; [reflexivity|]. simpl.
      repeat split; try done; try lia.
      exists [SETNX (reserve_key_of c) "1"; EXISTS c]. by rewrite <- app_assoc.
Qed.


Lemma attempts_unbound n rk st :
redis st = false →
ShadowSessionDict.attempts (S n) rk st
  = (Raise AttributeError, set_drawn (S (drawn st)) st).
Proof.
intros Hr. cbn [ShadowSessionDict.attempts].
unfold bind at 1. unfold RedisDict._generate_key.
unfold bind at 1. unfold call at 1. simpl. by rewrite Hr.
Qed.

Lemma commit_run k rk st :
redis st = true →
ShadowSessionDict.commit k rk st =
  let p := described_pipeline k rk st in
  let st2 := set_store (fst (exec_all p (store st)))
               (set_trace (trace st ++ [Pipeline p]) (set_key (Some k) st)) in
  match first_error (snd (exec_all p (store st))) with
  | Some msg => (Raise (ResponseError msg), st2)
  | None =>
      if session st
      then (Ok k, set_modified true
                    (set_cookie (<[SHADOW_KEY_NAME := k]> (cookie st)) st2))
      else (Raise TypeError, st2)
  end.
Proof.
intros Hr. unfold ShadowSessionDict.commit, described_pipeline.
unfold bind at 1. unfold pipeline. rewrite Hr.
unfold bind at 1. unfold get_state.
destruct (key st) as [old|] eqn:Hk; destruct (max_age st) as [m|] eqn:Hm;
  destruct rk as [r|];
  unfold bind, modify, ret, execute, ShadowSessionDict.owner,
    SecureCookieSession.__setitem__, modify;
  cbn -[exec_all first_error];
  rewrite <- ?app_assoc, ?app_nil_r; cbn -[exec_all first_error];
  (match goal with |- context [exec_all ?p (store st)] =>
     destruct (exec_all p (store st)) as [d rs] end; simpl;
   destruct (first_error rs); [reflexivity|];
   cbn -[exec_all first_error]; destruct (session st); reflexivity).
Qed.

Lemma create_hash_unbound st :
redis st = false →
ShadowSessionDict._create_hash st
  = (Raise AttributeError, set_drawn (S (drawn st)) st).
Proof.
intros Hr. unfold ShadowSessionDict._create_hash, bind.
by rewrite attempts_unbound.
Qed.

Lemma create_hash_run st :
redis st = true →
∃ st1 cmds,
  objects st1 = objects st ∧
  (drawn st ≤ drawn st1 ≤ drawn st + 100)%nat ∧
  trace st1 = trace st ++ (Cmd <$> cmds) ∧
  match search (store st) (entropy st) (drawn st) 100 with
  | None =>
      store st1 = store st ∧
      ShadowSessionDict._create_hash st = (Raise generation_exhausted, st1)
  | Some k =>
      store st1 = <[reserve_key_of k := marker]> (store st) ∧
      ShadowSessionDict._create_hash st
        = ShadowSessionDict.commit k (Some (reserve_key_of k)) st1
  end.
Proof.
intros Hr.
destruct (attempts_spec 100 None st Hr)
  as (rk & st1 & Heq & Hobj & Hdr & [cmds Htr] & Hst).
exists st1, cmds. repeat split; try done; try lia.
unfold ShadowSessionDict._create_hash, bind. rewrite Heq.
destruct (search (store st) (entropy st) (drawn st) 100) as [k|].
- destruct Hst as [-> Hst]. done.
- done.
Qed.

End Loop.

Lemma search_Some d gen c n : ∀ i,
  search d gen i n = Some c →
  ∃ j, (j < n)%nat ∧ c = gen (i + j)%nat ∧ accepted d c = true
       ∧ ∀ j', (j' < j)%nat → accepted d (gen (i + j')%nat) = false.
Proof.
  induction n as [|n IH]; intros i; simpl; [done|].
  destruct (accepted d (gen i)) eqn:Ha.
  - intros [= <-]. exists O. rewrite Nat.add_0_r. repeat split; try done; lia.
  - intros Hs. destruct (IH _ Hs) as (j & Hj & -> & Hacc & Hbefore).
    exists (S j). rewrite Nat.add_succ_r. repeat split; try done; try lia.
    intros [|j'] Hlt.
    + by rewrite Nat.add_0_r.
    + rewrite Nat.add_succ_r. apply (Hbefore j'). lia.
Qed.

Lemma search_None d gen n : ∀ i,
  search d gen i n = None ↔
  ∀ j, (j < n)%nat → accepted d (gen (i + j)%nat) = false.
Proof.
  induction n as [|n IH]; intros i; simpl.
  - split; [intros _ j; lia | done].
  - destruct (accepted d (gen i)) eqn:Ha.
    + split; [done|]. intros H. specialize (H O). rewrite Nat.add_0_r in H.
      rewrite H in Ha by lia. done.
    + rewrite IH. split.
      * intros H [|j] Hlt; [by rewrite Nat.add_0_r|].
        rewrite Nat.add_succ_r. apply (H j). lia.
      * intros H j Hlt. specialize (H (S j)). rewrite Nat.add_succ_r in H.
        apply H. lia.
Qed.

Section Candidates.
Context {hooks : Hooks}.

Lemma reservation_succeeds_spec d c :
reservation_succeeds d c = true ↔ d !! reserve_key_of c = None.
Proof.
unfold reservation_succeeds. simpl.
destruct (d !! reserve_key_of c); simpl; split; done.
Qed.

Lemma candidate_exists_spec d c :
candidate_exists d c = false ↔ d !! c = None.
Proof.
unfold candidate_exists. simpl.
destruct (d !! reserve_key_of c); simpl.
- destruct (d !! c); simpl; split; done.
- rewrite lookup_insert_ne by apply reserve_key_ne.
  destruct (d !! c); simpl; split; done.
Qed.

Lemma state_ext st st' :
cookie st = cookie st' → modified st = modified st' →
permanent st = permanent st' → session st = session st' →
accessed st = accessed st' → redis st = redis st' → key st = key st' →
max_age st = max_age st' → store st = store st' → trace st = trace st' →
entropy st = entropy st' → drawn st = drawn st' → st = st'.
Proof. destruct st, st'; simpl; intros; by subst. Qed.

Lemma objects_eq st st' :
objects st' = objects st →
cookie st' = cookie st ∧ modified st' = modified st ∧
permanent st' = permanent st ∧ session st' = session st ∧
accessed st' = accessed st ∧ redis st' = redis st ∧ key st' = key st ∧
max_age st' = max_age st ∧ entropy st' = entropy st.
Proof. unfold objects. intros [= ? ? ? ? ? ? ? ? ?]. done. Qed.

(** One iteration of the loop, by the replies of the store. *)
Lemma attempts_step n rk st :
redis st = true →
let c := entropy st (drawn st) in
let r := reserve_key_of c in
let st0 := set_drawn (S (drawn st)) st in
ShadowSessionDict.attempts (S n) rk st =
  if reservation_succeeds (store st) c then
    if candidate_exists (store st) c then
      ShadowSessionDict.attempts n (Some r)
        (set_trace (trace st ++ [Cmd (SETNX r "1"); Cmd (EXISTS c); Cmd (DEL r)]) st0)
    else
      (Ok (Some c, Some r),
       set_store (<[r := marker]> (store st))
         (set_trace (trace st ++ [Cmd (SETNX r "1"); Cmd (EXISTS c)]) st0))
  else
    ShadowSessionDict.attempts n None
      (set_trace (trace st ++ [Cmd (SETNX r "1")]) st0).
Proof.
intros Hr c r st0.
cbn [ShadowSessionDict.attempts].
unfold bind at 1. unfold RedisDict._generate_key. fold c.
unfold bind at 1. unfold call at 1. simpl. rewrite Hr.
change (c +:+ "-reserved") with r.
destruct (reservation_succeeds (store st) c) eqn:Hres.
- apply reservation_succeeds_spec in Hres. fold r in Hres. rewrite Hres. simpl.
  unfold bind at 1. unfold call at 1. simpl. rewrite Hr.
  rewrite lookup_insert_ne by apply reserve_key_ne.
  destruct (candidate_exists (store st) c) eqn:Hex.
  + destruct (store st !! c) as [e|] eqn:Hc.
    2:{ apply candidate_exists_spec in Hc. congruence. }
    simpl. unfold bind at 1. unfold call at 1. simpl. rewrite Hr.
    rewrite delete_insert_id by done.
    f_equal. apply state_ext; simpl; try done.
    by rewrite <- !app_assoc.
  + apply candidate_exists_spec in Hex. rewrite Hex. simpl.
    unfold ret. f_equal. apply state_ext; simpl; try done.
    by rewrite <- !app_assoc.
- destruct (store st !! r) as [e|] eqn:Hl.
  2:{ apply reservation_succeeds_spec in Hl. congruence. }
  simpl. f_equal.
Qed.

End Candidates.

(** ** Key generation *)

Lemma accepted_replies d c :
  accepted d c = true ↔
  reservation_succeeds d c = true ∧ candidate_exists d c = false.
Proof.
  unfold accepted. rewrite andb_true_iff, negb_true_iff. done.
Qed.

Lemma search_first d gen i n j :
  (j < n)%nat →
  accepted d (gen (i + j)%nat) = true →
  (∀ j', (j' < j)%nat → accepted d (gen (i + j')%nat) = false) →
  search d gen i n = Some (gen (i + j)%nat).
Proof.
  intros Hj Hacc Hbefore.
  destruct (search d gen i n) as [k|] eqn:Hs.
  - destruct (search_Some _ _ _ _ _ Hs) as (j0 & Hj0 & -> & Hacc0 & Hbefore0).
    destruct (Nat.lt_trichotomy j j0) as [Hlt|[->|Hlt]]; [|done|].
    + rewrite (Hbefore0 j Hlt) in Hacc. done.
    + rewrite (Hbefore j0 Hlt) in Hacc0. done.
  - rewrite search_None in Hs. rewrite (Hs j Hj) in Hacc. done.
Qed.

Lemma commit_drawn {hooks : Hooks} k rk st :
  redis st = true →
  drawn (snd (ShadowSessionDict.commit k rk st)) = drawn st.
Proof.
  intros Hr. rewrite commit_run by done. cbv zeta.
  destruct (first_error _); [done|]. by destruct (session st).
Qed.

Lemma commit_not_exhausted {hooks : Hooks} k rk st :
  redis st = true →
  fst (ShadowSessionDict.commit k rk st) ≠ Raise generation_exhausted.
Proof.
  intros Hr. rewrite commit_run by done. cbv zeta.
  destruct (first_error _); [done|]. by destruct (session st).
Qed.

(** The loop has 100 iterations; from here on it is reasoned about
    through the lemmas above and never unfolded by a tactic. *)
#[global] Opaque ShadowSessionDict.attempts search.

(** C2. [_create_hash] draws at most 100 candidate keys.  The loop leaves
    [new_key = k] exactly when [k] is the first of these candidates for
    which the set-if-absent of [k + "-reserved"] succeeds and [k] itself
    does not exist in the store.  When the reservation succeeds and the
    candidate exists, the reservation is deleted before the next
    iteration.  The method raises the generation error if and only if no
    candidate among the 100 is accepted. *)
Theorem create_hash_candidates {hooks : Hooks} (st : state) :
  redis st = true →
  let d := store st in
  let candidate (i : nat) := entropy st (drawn st + i)%nat in
  let free (c : string) :=
    reservation_succeeds d c = true ∧ candidate_exists d c = false in
  (drawn st ≤ drawn (snd (ShadowSessionDict._create_hash st)) ≤ drawn st + 100)%nat
  ∧ (∀ k,
       (∃ rk st', ShadowSessionDict.attempts 100 None st = (Ok (Some k, rk), st'))
       ↔ ∃ i, (i < 100)%nat ∧ k = candidate i ∧ free k
              ∧ ∀ j, (j < i)%nat → ¬ free (candidate j))
  ∧ (∀ n rk,
       reservation_succeeds d (candidate O) = true →
       candidate_exists d (candidate O) = true →
       ∃ st1,
         ShadowSessionDict.attempts (S n) rk st
           = ShadowSessionDict.attempts n (Some (reserve_key_of (candidate O))) st1
         ∧ trace st1 = trace st ++ [Cmd (SETNX (reserve_key_of (candidate O)) "1");
                                    Cmd (EXISTS (candidate O));
                                    Cmd (DEL (reserve_key_of (candidate O)))]
         ∧ store st1 = d ∧ drawn st1 = S (drawn st))
  ∧ (fst (ShadowSessionDict._create_hash st) = Raise generation_exhausted
     ↔ ∀ i, (i < 100)%nat → ¬ free (candidate i)).
Proof.
  intros Hr d candidate free.
  assert (Hfree : ∀ c, accepted d c = false ↔ ¬ free c).
  { intros c. unfold free. rewrite <- accepted_replies.
    destruct (accepted d c); split; try done; intros H; by destruct H. }
  destruct (create_hash_run st Hr) as (st1 & cmds & Hobj & Hdr & Htr & Hrun).
  destruct (attempts_spec 100 None st Hr)
    as (rk1 & st1' & Heq & _ & _ & _ & _).
  assert (Hr1 : redis st1 = true).
  { apply objects_eq in Hobj. destruct Hobj as (_&_&_&_&_&->&_). done. }
  fold d in Hrun, Heq. repeat split.
  - destruct (search d (entropy st) (drawn st) 100) as [k|];
      destruct Hrun as [_ ->]; [rewrite commit_drawn by done|simpl]; lia.
  - destruct (search d (entropy st) (drawn st) 100) as [k|];
      destruct Hrun as [_ ->]; [rewrite commit_drawn by done|simpl]; lia.
  - intros (rk & st' & Hk). rewrite Heq in Hk. injection Hk as Hs _ _.
    destruct (search_Some _ _ _ _ _ Hs) as (i & Hi & -> & Hacc & Hbefore).
    exists i. repeat split; try done; try by apply accepted_replies.
    intros j Hj. apply Hfree, Hbefore, Hj.
  - intros (i & Hi & -> & Hk & Hbefore). exists rk1, st1'. rewrite Heq.
    do 3 f_equal. apply search_first; [done|by apply accepted_replies|].
    intros j Hj. apply Hfree, Hbefore, Hj.
  - intros n rk.
    assert (Hc0 : candidate O = entropy st (drawn st)).
    { unfold candidate. by rewrite Nat.add_0_r. }
    rewrite Hc0. intros Hres Hex. eexists. split.
    + rewrite attempts_step by done. cbv zeta.
      fold d. rewrite Hres, Hex. reflexivity.
    + done.
  - intros Hex i Hi. apply Hfree.
    destruct (search d (entropy st) (drawn st) 100) as [k|] eqn:Hs.
    + destruct Hrun as [_ Hc]. rewrite Hc in Hex.
      by apply commit_not_exhausted in Hex.
    + by apply (proj1 (search_None _ _ _ _) Hs).
  - intros Hnone.
    assert (Hs : search d (entropy st) (drawn st) 100 = None).
    { apply search_None. intros j Hj. apply Hfree, Hnone, Hj. }
    rewrite Hs in Hrun. destruct Hrun as [_ ->]. done.
Qed.


(** ** The pipeline of [_create_hash] *)




(** ** Rotating the key *)


(** Reading a stored field of the current record. *)
Lemma getitem_stored {hooks : Hooks} st k h t f v :
  session st = true → redis st = true → key st = Some k →
  store st !! k = Some (Entry (RHash h) t) →
  h !! f = Some v →
  fst (ShadowSessionDict.__getitem__ f st) = Ok v.
Proof.
  intros Hs Hr Hk Hst Hf.
  unfold ShadowSessionDict.__getitem__, ShadowSessionDict.touch,
    RedisDict.__getitem__, ShadowSessionDict._check_state,
    RedisDict._check_state, self_key, call, bind, modify, get_state, ret.
  simpl. rewrite Hs. simpl.
  repeat (first [rewrite Hr | rewrite Hk | rewrite Hst | rewrite Hf]; simpl).
  done.
Qed.


(** ** Saving *)

(** C5. [save_session] sends nothing to the store when [accessed] is
    false or [key] is [None]: the state is left as it was, and so it is by
    a second save in a row.  When [accessed] is true and a key exists it
    sends exactly one pipeline, made of what the on-save hook queues and,
    if [max_age] is set, the expiry of the key to [max_age]. *)
Theorem save_session_effects {hooks : Hooks} (st : state) :
  (accessed st = false ∨ key st = None →
     ShadowSessionDict.save_session st = (Ok tt, st)
     ∧ (ShadowSessionDict.save_session ;;; ShadowSessionDict.save_session) st
         = (Ok tt, st))
  ∧ (∀ k, accessed st = true → key st = Some k → redis st = true →
       let p := described_save_pipeline k st in
       let out := ShadowSessionDict.save_session st in
       trace (snd out) = trace st ++ [Pipeline p]
       ∧ store (snd out) = fst (exec_all p (store st))
       ∧ objects (snd out) = objects st
       ∧ (first_error (snd (exec_all p (store st))) = None → fst out = Ok tt)).
Proof.
  split.
  - intros Hno.
    assert (H1 : ShadowSessionDict.save_session st = (Ok tt, st)).
    { unfold ShadowSessionDict.save_session, bind, get_state. cbn.
      destruct Hno as [Ha|Hk].
      - by rewrite Ha.
      - rewrite Hk. by destruct (accessed st). }
    split; [done|]. unfold bind at 1. by rewrite H1.
  - intros k Ha Hk Hr p out. unfold out, p.
    unfold ShadowSessionDict.save_session, described_save_pipeline,
      bind, get_state, pipeline, execute, ret.
    cbn -[exec_all first_error]. rewrite Ha, Hk, Hr.
    destruct (max_age st) as [m|]; cbn -[exec_all first_error];
      rewrite ?app_nil_r;
      match goal with |- context [exec_all ?p (store st)] =>
        destruct (exec_all p (store st)) as [d rs] end;
      cbn -[first_error]; destruct (first_error rs); done.
Qed.

(** With the hooks of the base class a second save in a row leaves the
    store as the first one left it. *)
Lemma save_session_again st :
  let save := ShadowSessionDict.save_session (hooks := base_hooks) in
  store (snd ((save ;;; save) st)) = store (snd (save st)).
Proof.
  unfold ShadowSessionDict.save_session, bind, get_state, pipeline, execute, ret.
  simpl.
  destruct (accessed st) eqn:Ha; simpl; [|by rewrite ?Ha].
  destruct (key st) as [k|] eqn:Hk; simpl; [|by rewrite ?Ha, ?Hk].
  destruct (redis st) eqn:Hr; simpl; [|by rewrite ?Ha, ?Hk, ?Hr].
  destruct (max_age st) as [m|] eqn:Hm; simpl.
  - destruct (store st !! k) as [e|] eqn:He; simpl;
      repeat (first [rewrite Ha | rewrite Hk | rewrite Hr | rewrite Hm
                    | rewrite He | rewrite lookup_insert_eq]; simpl);
      [by rewrite insert_insert_eq | done].
  - repeat (first [rewrite Ha | rewrite Hk | rewrite Hr | rewrite Hm]; simpl).
    done.
Qed.

(** ** Opening *)



(** ** Key rotation and the accessed flag *)

Lemma create_hash_cases {hooks : Hooks} st :
  let out := ShadowSessionDict._create_hash st in
  accessed (snd out) = accessed st
  ∧ redis (snd out) = redis st
  ∧ session (snd out) = session st
  ∧ ∀ k, fst out = Ok k → key (snd out) = Some k.
Proof.
  cbv zeta. destruct (redis st) eqn:Hr.
  - destruct (create_hash_run st Hr) as (st1 & cmds & Hobj & _ & _ & Hrun).
    apply objects_eq in Hobj.
    destruct Hobj as (_ & _ & _ & Hse & Hac & Hre & _).
    destruct (search _ _ _ _) as [k|]; destruct Hrun as [_ ->].
    + rewrite commit_run by congruence. cbv zeta.
      destruct (first_error _); [|destruct (session st1) eqn:Hs1]; simpl;
        repeat split; try congruence; try (intros ? [=]; congruence).
    + simpl. repeat split; try congruence; intros ? [=].
  - rewrite create_hash_unbound by done. simpl.
    repeat split; try done; intros ? [=].
Qed.

(** C10. [regenerate_key] leaves [accessed] as it was: on a record with
    [accessed] false it stays false, whether or not a key was created, so
    that a [save_session] right after it sends nothing to the store, even
    though the record now has a key. *)
Theorem regenerate_key_keeps_accessed {hooks : Hooks} (st : state) :
  accessed st = false →
  let out := ShadowSessionDict.regenerate_key st in
  accessed (snd out) = false
  ∧ ShadowSessionDict.save_session (snd out) = (Ok tt, snd out)
  ∧ (∀ k, fst out = Ok k → key (snd out) = Some k).
Proof.
  intros Ha out. unfold out, ShadowSessionDict.regenerate_key.
  destruct (create_hash_cases st) as (Hacc & _ & _ & Hkey).
  rewrite Ha in Hacc. split; [done|]. split; [|done].
  apply save_session_effects. by left.
Qed.

(** ** Records that are gone *)

(** The creation pipeline when the hook queues nothing: the expiry finds
    no record yet and the marker is removed, so the store is back to what
    it was before the reservation. *)
Lemma create_pipeline (d : gmap string entry) new (m : option Z) :
  d !! new = None →
  d !! reserve_key_of new = None →
  let p := match m with Some s => [EXPIRE new s] | None => [] end
           ++ [DEL (reserve_key_of new)] in
  fst (exec_all p (<[reserve_key_of new := marker]> d)) = d
  ∧ first_error (snd (exec_all p (<[reserve_key_of new := marker]> d))) = None.
Proof.
  intros Hnew Hres p. unfold p.
  assert (Hne : reserve_key_of new ≠ new) by apply reserve_key_ne.
  destruct m as [s|]; simpl.
  - rewrite lookup_insert_ne, Hnew by done. simpl.
    rewrite lookup_insert_eq. simpl. by rewrite delete_insert_id.
  - rewrite lookup_insert_eq. simpl. by rewrite delete_insert_id.
Qed.

(** The lazy creation of a key, when generation finds a free candidate
    and the on-create hook queues nothing. *)
Lemma check_state_creates {hooks : Hooks} st new_key :
  (∀ s, _on_create_hash s = []) →
  session st = true → redis st = true → key st = None →
  search (store st) (entropy st) (drawn st) 100 = Some new_key →
  ∃ st2,
    ShadowSessionDict._check_state st = (Ok tt, st2)
    ∧ key st2 = Some new_key
    ∧ cookie st2 = <[SHADOW_KEY_NAME := new_key]> (cookie st)
    ∧ store st2 = store st
    ∧ session st2 = true ∧ redis st2 = true
    ∧ accessed st2 = accessed st.
Proof.
  intros Hhook Hs Hr Hk Hsearch.
  destruct (create_hash_run st Hr) as (st1 & cmds & Hobj & _ & _ & Hrun).
  rewrite Hsearch in Hrun. destruct Hrun as [Hstore Hrun].
  apply objects_eq in Hobj.
  destruct Hobj as (Hck & _ & _ & Hse & Hac & Hre & Hk1 & Hma & _).
  destruct (search_Some _ _ _ _ _ Hsearch) as (i & _ & _ & Hacc & _).
  apply accepted_spec in Hacc. destruct Hacc as [Hres Hnew].
  destruct (create_pipeline (store st) new_key (max_age st1) Hnew Hres)
    as [Hfst Herr].
  unfold ShadowSessionDict._check_state, RedisDict._check_state, bind, get_state.
  rewrite Hr, Hk, Hrun, commit_run by congruence.
  unfold described_pipeline. rewrite Hk1, Hk, Hhook, Hstore. cbv zeta.
  simpl app. rewrite Herr, Hfst, Hse, Hs.
  eexists. split; [reflexivity|]. simpl. repeat split; congruence.
Qed.

Lemma exists_false_inv {hooks : Hooks} st st' :
  ShadowSessionDict.exists_ st = (Ok false, st') →
  (∃ k, key st = Some k ∧ store st !! k = None)
  ∧ key st' = None
  ∧ cookie st' = delete SHADOW_KEY_NAME (cookie st)
  ∧ store st' = store st
  ∧ redis st' = true ∧ session st' = true
  ∧ entropy st' = entropy st ∧ drawn st' = drawn st
  ∧ accessed st' = accessed st.
Proof.
  unfold ShadowSessionDict.exists_, RedisDict.exists_, ShadowSessionDict.owner,
    SecureCookieSession.__contains__, SecureCookieSession.__delitem__,
    self_key, call, bind, modify, ret.
  destruct (key st) as [k|] eqn:Hk; [|discriminate].
  destruct (redis st) eqn:Hr; [|discriminate]. simpl.
  destruct (store st !! k) as [e|] eqn:He; simpl; [discriminate|].
  destruct (session st) eqn:Hs; simpl; [|discriminate].
  destruct (cookie st !! SHADOW_KEY_NAME) as [v|] eqn:Hc; simpl.
  - rewrite Hs. simpl. rewrite Hc. intros [= <-]. simpl.
    repeat split; try done. by exists k.
  - intros [= <-]. simpl. repeat split; try done; [by exists k|].
    by rewrite delete_id.
Qed.

(** C6. When [exists()] answers false, which it does for a record whose
    key is not in the store, "shadow_key" is removed from the cookie-side
    session and [key] is reset to [None]; the next field access then
    creates a new key and an empty record without error (key generation
    finding a free candidate, the on-create hook queueing nothing).
    [delete()] removes the record from the store, removes "shadow_key"
    from the cookie-side session and resets [key] to [None]. *)
Theorem exists_delete_reset {hooks : Hooks} (st : state) :
  (∀ k, session st = true → redis st = true →
        key st = Some k → store st !! k = None →
        fst (ShadowSessionDict.exists_ st) = Ok false)
  ∧ (∀ st',
       ShadowSessionDict.exists_ st = (Ok false, st') →
       key st' = None
       ∧ cookie st' = delete SHADOW_KEY_NAME (cookie st)
       ∧ store st' = store st
       ∧ ∀ new_key,
           (∀ s, _on_create_hash s = []) →
           search (store st') (entropy st') (drawn st') 100 = Some new_key →
           store st !! new_key = None
           ∧ (∃ st1, ShadowSessionDict._check_state st' = (Ok tt, st1)
                     ∧ key st1 = Some new_key
                     ∧ cookie st1 !! SHADOW_KEY_NAME = Some new_key
                     ∧ store st1 = store st)
           ∧ ∀ f v, ∃ st2,
               ShadowSessionDict.__setitem__ f v st' = (Ok tt, st2)
               ∧ key st2 = Some new_key
               ∧ cookie st2 !! SHADOW_KEY_NAME = Some new_key
               ∧ store st2
                 = <[new_key := Entry (RHash {[f := v]}) None]> (store st))
  ∧ (∀ k, session st = true → redis st = true → key st = Some k →
       ∃ st',
         ShadowSessionDict.delete_ st = (Ok tt, st')
         ∧ key st' = None
         ∧ cookie st' = delete SHADOW_KEY_NAME (cookie st)
         ∧ store st' = delete k (store st)).
Proof.
  split; [|split].
  - intros k Hs Hr Hk He.
    unfold ShadowSessionDict.exists_, RedisDict.exists_, ShadowSessionDict.owner,
      SecureCookieSession.__contains__, SecureCookieSession.__delitem__,
      self_key, call, bind, modify, ret.
    rewrite Hk, Hr. simpl. rewrite He. simpl. rewrite Hs. simpl.
    destruct (cookie st !! SHADOW_KEY_NAME) eqn:Hc; simpl; [|done].
    rewrite Hs. simpl. by rewrite Hc.
  - intros st' Hex.
    destruct (exists_false_inv _ _ Hex)
      as (_ & Hk & Hck & Hst & Hr & Hs & Hen & Hdr & Hac).
    split; [done|]. split; [done|]. split; [done|].
    intros new_key Hhook Hsearch. split; [|split].
    + destruct (search_Some _ _ _ _ _ Hsearch) as (i & _ & _ & Hacc & _).
      apply accepted_spec in Hacc. destruct Hacc as [_ Hnew]. congruence.
    + destruct (check_state_creates st' new_key Hhook Hs Hr Hk Hsearch)
        as (st1 & Heq & Hk1 & Hc1 & Hs1 & _).
      exists st1. repeat split; try done; try congruence.
      rewrite Hc1. by rewrite lookup_insert_eq.
    + intros f v.
      set (stt := set_modified true (set_accessed true st')).
      destruct (check_state_creates stt new_key Hhook Hs Hr Hk Hsearch)
        as (st1 & Heq & Hk1 & Hc1 & Hs1 & Hse1 & Hr1 & _).
      assert (Hnew : store st1 !! new_key = None).
      { destruct (search_Some _ _ _ _ _ Hsearch) as (i & _ & _ & Hacc & _).
        apply accepted_spec in Hacc. destruct Hacc as [_ Hnew].
        rewrite Hs1. done. }
      unfold ShadowSessionDict.__setitem__, ShadowSessionDict.touch,
        RedisDict.__setitem__, self_key, call, bind, modify, ret.
      simpl. rewrite Hs. fold stt. rewrite Heq, Hk1, Hr1. simpl.
      rewrite Hnew. eexists. split; [reflexivity|]. simpl.
      repeat split; try done.
      * rewrite Hc1. by rewrite lookup_insert_eq.
      * rewrite Hs1. simpl. by rewrite Hst.
  - intros k Hs Hr Hk.
    unfold ShadowSessionDict.delete_, RedisDict.delete_, ShadowSessionDict.owner,
      SecureCookieSession.__contains__, SecureCookieSession.__delitem__,
      self_key, call, bind, modify, ret.
    rewrite Hk, Hr. simpl. rewrite Hs. simpl.
    destruct (cookie st !! SHADOW_KEY_NAME) eqn:Hc; simpl.
    + rewrite Hs. simpl. rewrite Hc. eexists. split; [reflexivity|]. done.
    + eexists. split; [reflexivity|]. simpl. repeat split; try done.
      by rewrite delete_id.
Qed.

(** ** What the item methods of the shadow keep

    A relation between the state before and after that is reflexive and
    transitive is kept by a method as soon as its steps keep it. *)
Section Preservation.
Context {hooks : Hooks}.
Variable R : state → state → Prop.
Context `{!PreOrder R}.

Lemma preserves_ret {A} (a : A) : preserves R (ret a).
Proof. intros st. simpl. reflexivity. Qed.

Lemma preserves_raise {A} (e : exn) : preserves R (raise (A := A) e).
Proof. intros st. simpl. reflexivity. Qed.

Lemma preserves_bind {A B} (m : M A) (k : A → M B) :
  preserves R m → (∀ a, preserves R (k a)) → preserves R (bind m k).
Proof.
  intros Hm Hk st. unfold bind. specialize (Hm st).
  destruct (m st) as [[a|e] st1]; simpl in *; [|done].
  etransitivity; [exact Hm|apply Hk].
Qed.

Lemma preserves_self_key : preserves R self_key.
Proof. intros st. unfold self_key. destruct (key st); simpl; reflexivity. Qed.

Hypothesis R_call : ∀ c, preserves R (call c).
Hypothesis R_touch : preserves R ShadowSessionDict.touch.
Hypothesis R_check : preserves R ShadowSessionDict._check_state.

Lemma preserves_getitem f : preserves R (ShadowSessionDict.__getitem__ f).
Proof.
  unfold ShadowSessionDict.__getitem__, RedisDict.__getitem__.
  repeat (apply preserves_bind; [done || apply preserves_self_key|intros ?]).
  match goal with |- preserves _ (match ?r with _ => _ end) =>
    destruct r as [?|[?|]|?] end;
    apply preserves_ret || apply preserves_raise.
Qed.

Lemma preserves_setitem f v : preserves R (ShadowSessionDict.__setitem__ f v).
Proof.
  unfold ShadowSessionDict.__setitem__, RedisDict.__setitem__.
  repeat (apply preserves_bind; [done || apply preserves_self_key|intros ?]).
  apply preserves_ret.
Qed.

Lemma preserves_delitem f : preserves R (ShadowSessionDict.__delitem__ f).
Proof.
  unfold ShadowSessionDict.__delitem__, RedisDict.__delitem__.
  repeat (apply preserves_bind; [done || apply preserves_self_key|intros ?]).
  apply preserves_ret.
Qed.

Lemma preserves_contains f : preserves R (ShadowSessionDict.__contains__ f).
Proof.
  unfold ShadowSessionDict.__contains__, RedisDict.__contains__.
  repeat (apply preserves_bind; [done || apply preserves_self_key|intros ?]).
  apply preserves_ret.
Qed.

Lemma preserves_pop f args : preserves R (ShadowSessionDict.pop f args).
Proof.
  intros st. unfold ShadowSessionDict.pop, RedisDict.pop.
  pose proof (preserves_getitem f st) as Hg.
  destruct (ShadowSessionDict.__getitem__ f st) as [[v|e] st1]; simpl in Hg.
  - etransitivity; [exact Hg|].
    apply (preserves_bind (ShadowSessionDict.__delitem__ f) (λ _, ret v));
      [apply preserves_delitem|intros; apply preserves_ret].
  - destruct e; try done. by destruct args.
Qed.

End Preservation.

(** ** Routing of field names *)



#[local] Instance cookie_frame_preorder : PreOrder cookie_frame.
Proof.
  split.
  - by intros st f _.
  - intros s1 s2 s3 H12 H23 f Hf. by rewrite H23, H12.
Qed.

Lemma forced_fields f : f ∈ _force_shadow_fields ↔ f = "_flashes".
Proof. unfold _force_shadow_fields. set_solver. Qed.

Lemma shadow_key_not_forced : SHADOW_KEY_NAME ∉ _force_shadow_fields.
Proof. rewrite forced_fields. done. Qed.

(** For "shadow_key" the item methods of the session are the inherited
    ones, which is what the shadow calls on its owner. *)
Lemma session_items {hooks : Hooks} :
  (∀ v, ShadowSession.__setitem__ SHADOW_KEY_NAME v
        = SecureCookieSession.__setitem__ SHADOW_KEY_NAME v)
  ∧ ShadowSession.__delitem__ SHADOW_KEY_NAME
    = SecureCookieSession.__delitem__ SHADOW_KEY_NAME
  ∧ ShadowSession.__contains__ SHADOW_KEY_NAME
    = SecureCookieSession.__contains__ SHADOW_KEY_NAME.
Proof.
  unfold ShadowSession.__setitem__, ShadowSession.__delitem__,
    ShadowSession.__contains__.
  rewrite (bool_decide_eq_true_2 _ shadow_key_not_forced). done.
Qed.

Section CookieFrame.
Context {hooks : Hooks}.

Lemma call_cookie_frame c : preserves cookie_frame (call c).
Proof.
  intros st f _. unfold call. destruct (redis st); [|done].
  destruct (exec c (store st)) as [d []]; done.
Qed.

Lemma touch_cookie_frame : preserves cookie_frame ShadowSessionDict.touch.
Proof.
  intros st f _. unfold ShadowSessionDict.touch, bind, modify. simpl.
  by destruct (session st).
Qed.

Lemma create_hash_cookie_frame :
  preserves cookie_frame ShadowSessionDict._create_hash.
Proof.
  intros st f Hf. destruct (redis st) eqn:Hr.
  - destruct (create_hash_run st Hr) as (st1 & cmds & Hobj & _ & _ & Hrun).
    apply objects_eq in Hobj.
    destruct Hobj as (Hck & _ & _ & _ & _ & Hre & _).
    destruct (search _ _ _ _) as [k|]; destruct Hrun as [_ ->];
      [|simpl; by rewrite Hck].
    rewrite commit_run by congruence. cbv zeta.
    destruct (first_error _); simpl; [by rewrite Hck|].
    destruct (session st1); simpl; [|by rewrite Hck].
    by rewrite lookup_insert_ne, Hck.
  - by rewrite create_hash_unbound.
Qed.

Lemma check_state_cookie_frame :
  preserves cookie_frame ShadowSessionDict._check_state.
Proof.
  intros st. unfold ShadowSessionDict._check_state, RedisDict._check_state,
    bind, get_state, modify, ret.
  destruct (redis st); [|reflexivity].
  destruct (key st); [reflexivity|].
  pose proof (create_hash_cookie_frame st) as Hc.
  destruct (ShadowSessionDict._create_hash st) as [[k|e] st1]; exact Hc.
Qed.

End CookieFrame.

(** C1. A field name is forced exactly when it is "_flashes".  On a
    forced name the five item methods of the session are those of the
    shadow record, on any other name they are the inherited cookie-side
    ones.  So writing and then reading a name that is not forced returns
    the written value from the cookie-side mapping and sends nothing to
    the store; and no item method, on whatever name, stores a forced name
    in the cookie-side mapping. *)
Theorem session_routing {hooks : Hooks} :
  (∀ f, f ∈ _force_shadow_fields ↔ f = "_flashes")
  ∧ (∀ f, f ∈ _force_shadow_fields →
       ShadowSession.__getitem__ f = ShadowSessionDict.__getitem__ f
       ∧ (∀ v, ShadowSession.__setitem__ f v = ShadowSessionDict.__setitem__ f v)
       ∧ ShadowSession.__delitem__ f = ShadowSessionDict.__delitem__ f
       ∧ ShadowSession.__contains__ f = ShadowSessionDict.__contains__ f
       ∧ (∀ args, ShadowSession.pop f args = ShadowSessionDict.pop f args))
  ∧ (∀ f, f ∉ _force_shadow_fields →
       ShadowSession.__getitem__ f = SecureCookieSession.__getitem__ f
       ∧ (∀ v, ShadowSession.__setitem__ f v = SecureCookieSession.__setitem__ f v)
       ∧ ShadowSession.__delitem__ f = SecureCookieSession.__delitem__ f
       ∧ ShadowSession.__contains__ f = SecureCookieSession.__contains__ f
       ∧ (∀ args, ShadowSession.pop f args = SecureCookieSession.pop f args))
  ∧ (∀ f v st, f ∉ _force_shadow_fields →
       ∃ st',
         (ShadowSession.__setitem__ f v ;;; ShadowSession.__getitem__ f) st
           = (Ok v, st')
         ∧ cookie st' = <[f := v]> (cookie st)
         ∧ trace st' = trace st ∧ store st' = store st)
  ∧ (∀ f st, f ∈ _force_shadow_fields → cookie st !! f = None →
       (∀ n, cookie (snd (ShadowSession.__getitem__ n st)) !! f = None)
       ∧ (∀ n v, cookie (snd (ShadowSession.__setitem__ n v st)) !! f = None)
       ∧ (∀ n, cookie (snd (ShadowSession.__delitem__ n st)) !! f = None)
       ∧ (∀ n, cookie (snd (ShadowSession.__contains__ n st)) !! f = None)
       ∧ (∀ n args, cookie (snd (ShadowSession.pop n args st)) !! f = None)).
Proof.
  split; [exact forced_fields|].
  split; [|split; [|split]].
  - intros f Hf.
    unfold ShadowSession.__getitem__, ShadowSession.__setitem__,
      ShadowSession.__delitem__, ShadowSession.__contains__, ShadowSession.pop.
    rewrite bool_decide_eq_false_2 by (intros Hn; by apply Hn). done.
  - intros f Hf.
    unfold ShadowSession.__getitem__, ShadowSession.__setitem__,
      ShadowSession.__delitem__, ShadowSession.__contains__, ShadowSession.pop.
    rewrite bool_decide_eq_true_2 by done. done.
  - intros f v st Hf.
    unfold ShadowSession.__getitem__, ShadowSession.__setitem__.
    rewrite bool_decide_eq_true_2 by done.
    unfold bind, SecureCookieSession.__setitem__,
      SecureCookieSession.__getitem__, modify. simpl.
    rewrite lookup_insert_eq. eexists. split; [reflexivity|]. done.
  - intros f st Hf Hnone.
    assert (Hfk : f ≠ SHADOW_KEY_NAME).
    { apply forced_fields in Hf. by subst f. }
    assert (Hshadow : ∀ A (m : M A),
      preserves cookie_frame m → cookie (snd (m st)) !! f = None).
    { intros A m Hm. by rewrite (Hm st f Hfk). }
    unfold ShadowSession.__getitem__, ShadowSession.__setitem__,
      ShadowSession.__delitem__, ShadowSession.__contains__, ShadowSession.pop.
    repeat split; intros n; intros;
      (destruct (decide (n ∈ _force_shadow_fields)) as [Hn|Hn];
       [ rewrite bool_decide_eq_false_2 by (intros Hx; by apply Hx);
         apply Hshadow;
         first [ apply preserves_getitem | apply preserves_setitem
               | apply preserves_delitem | apply preserves_contains
               | apply preserves_pop ];
         first [ apply _ | apply call_cookie_frame | apply touch_cookie_frame
               | apply check_state_cookie_frame ]
       | rewrite bool_decide_eq_true_2 by done;
         assert (Hnf : n ≠ f) by congruence ]).
    + unfold SecureCookieSession.__getitem__.
      by destruct (cookie st !! n).
    + unfold SecureCookieSession.__setitem__, modify. simpl.
      by rewrite lookup_insert_ne.
    + unfold SecureCookieSession.__delitem__.
      destruct (cookie st !! n); simpl; [|done]. by rewrite lookup_delete_ne.
    + done.
    + unfold SecureCookieSession.pop.
      destruct (cookie st !! n); simpl; [by rewrite lookup_delete_ne|].
      by destruct args.
Qed.

(** ** The coordinator *)



(** [session.permanent = value] is a write to the cookie-side mapping:
    "_permanent" is not a forced field. *)
Lemma permanent_setter_run {hooks : Hooks} (value : bool) (st : state) :
  ShadowSession.permanent_setter value st
  = (Ok tt,
     set_modified true
       (set_cookie (<["_permanent" := if value then "True" else "False"]> (cookie st))
          st)).
Proof.
  unfold ShadowSession.permanent_setter, ShadowSession.__setitem__.
  rewrite bool_decide_eq_true_2; [done|].
  rewrite forced_fields. discriminate.
Qed.

(** The state in which the interface opens the shadow record: the
    decoded session after [session.permanent = False]. *)
Lemma interface_open_unfold {hooks : Hooks} {inherited : Inherited}
    (Request : Type)
    (super_open_session : Flask → Request → option (gmap string string))
    (self : ShadowSessionInterface.t) (app : Flask) (request : Request)
    (data : gmap string string) (st : state) :
  super_open_session app request = Some data →
  ShadowSessionInterface.open_session Request super_open_session
    self app request st
  = (ShadowSessionDict.open_session PyShadowSession
       (ShadowSessionInterface.redis self)
       (Some (or_ (ShadowSessionInterface.max_age self)
                (total_seconds (permanent_session_lifetime app)))) ;;;
     ret (Some PyShadowSession))
      (set_modified true
         (set_cookie (<["_permanent" := "False"]> data)
            (ShadowSession.__init__ data st))).
Proof.
  intros Hdata. unfold ShadowSessionInterface.open_session. rewrite Hdata.
  unfold bind at 1. unfold modify at 1.
  unfold bind at 1. by rewrite permanent_setter_run.
Qed.

(** C8, as stated, fails: an explicit [max_age] of 0 is configured, yet
    the record is opened with the application's lifetime in seconds. *)
Lemma open_session_zero_override :
  ShadowSessionInterface.max_age zero_override = Some 0
  ∧ max_age (snd (ShadowSessionInterface.open_session (hooks := base_hooks)
                    unit decode_empty
                    zero_override default_app tt (constructed tally)))
    = Some 2678400.
Proof. split; reflexivity. Qed.

(** C8, amended.  [open_session] of the interface returns [None] and
    changes nothing when the cookie collaborator yields nothing.
    Otherwise the session is the decoded one with its [permanent] flag
    set to false, which writes "_permanent" into the cookie-side mapping
    and marks the session modified; the shadow record is opened on it
    with the interface's store handle and with [max_age] equal to the
    explicit override when one is configured and is not 0, and to the
    application's permanent session lifetime in seconds otherwise; the
    session is returned.  Nothing is sent to the store. *)
Theorem open_session_coordinator {hooks : Hooks} {inherited : Inherited}
    (Request : Type)
    (super_open_session : Flask → Request → option (gmap string string))
    (self : ShadowSessionInterface.t) (app : Flask) (request : Request)
    (st : state) :
  let open := ShadowSessionInterface.open_session Request super_open_session
                self app request in
  let lifetime := total_seconds (permanent_session_lifetime app) in
  (super_open_session app request = None → open st = (Ok None, st))
  ∧ (∀ data, super_open_session app request = Some data →
       ∃ m,
         (∀ o, ShadowSessionInterface.max_age self = Some o → o ≠ 0 → m = o)
         ∧ (ShadowSessionInterface.max_age self = Some 0 → m = lifetime)
         ∧ (ShadowSessionInterface.max_age self = None → m = lifetime)
         ∧ open st
           = (ShadowSessionDict.open_session PyShadowSession
                (ShadowSessionInterface.redis self) (Some m) ;;;
              ret (Some PyShadowSession))
               (snd (ShadowSession.permanent_setter false
                       (ShadowSession.__init__ data st)))
         ∧ (isinstance_Redis (ShadowSessionInterface.redis self) = true →
            ∃ st',
              open st = (Ok (Some PyShadowSession), st')
              ∧ permanent st' = false
              ∧ cookie st' = <["_permanent" := "False"]> data
              ∧ modified st' = true
              ∧ key st' = data !! SHADOW_KEY_NAME
              ∧ max_age st' = Some m
              ∧ session st' = true ∧ redis st' = true ∧ accessed st' = false
              ∧ trace st' = trace st ∧ store st' = store st)).
Proof.
  intros open lifetime. split.
  - unfold open, ShadowSessionInterface.open_session. intros ->. done.
  - intros data Hdata.
    exists (or_ (ShadowSessionInterface.max_age self) lifetime).
    split; [|split; [|split; [|split]]].
    + intros o -> Ho. unfold or_. by rewrite (proj2 (Z.eqb_neq o 0) Ho).
    + by intros ->.
    + by intros ->.
    + unfold open. rewrite (interface_open_unfold _ _ _ _ _ data) by done.
      by rewrite permanent_setter_run.
    + intros Hr. unfold open.
      rewrite (interface_open_unfold _ _ _ _ _ data) by done.
      unfold bind, modify, ShadowSessionDict.open_session,
        SecureCookieSession.get. simpl.
      rewrite Hr. simpl. eexists. split; [reflexivity|]. simpl.
      repeat split; try done.
      * unfold permanent. simpl. by rewrite lookup_insert_eq.
      * by rewrite lookup_insert_ne.
Qed.

(** ** The key of a record along a run *)



#[local] Instance key_step_preorder : PreOrder key_step.
Proof.
  split.
  - intros st. by left.
  - intros s1 s2 s3 [[Hk1 Hp1]|(Hn1 & Hs1 & Hp1)] [[Hk2 Hp2]|(Hn2 & Hs2 & Hp2)].
    + left. split; congruence.
    + right. repeat split; congruence.
    + right. repeat split; try congruence; by rewrite Hk2.
    + rewrite Hn2 in Hs1. by destruct Hs1.
Qed.

Lemma pipelines_app t1 t2 :
  pipelines (t1 ++ t2) = (pipelines t1 + pipelines t2)%nat.
Proof. induction t1 as [|x t1 IH]; simpl; [done|]. rewrite IH. lia. Qed.

Lemma pipelines_cmds cmds : pipelines (Cmd <$> cmds) = O.
Proof. induction cmds as [|c cmds IH]; simpl; done. Qed.

Section KeyStep.
Context {hooks : Hooks}.

Lemma call_key_step c : preserves key_step (call c).
Proof.
  intros st. left. unfold call. destruct (redis st); [|done].
  destruct (exec c (store st)) as [d []]; simpl;
    rewrite pipelines_app; simpl; split; try done; lia.
Qed.

Lemma touch_key_step : preserves key_step ShadowSessionDict.touch.
Proof.
  intros st. left. unfold ShadowSessionDict.touch, bind, modify. simpl.
  by destruct (session st).
Qed.

Lemma create_hash_key_step st :
  key st = None → key_step st (snd (ShadowSessionDict._create_hash st)).
Proof.
  intros Hk. destruct (redis st) eqn:Hr.
  - destruct (create_hash_run st Hr) as (st1 & cmds & Hobj & _ & Htr & Hrun).
    apply objects_eq in Hobj.
    destruct Hobj as (_ & _ & _ & _ & _ & Hre & Hk1 & _).
    assert (Hp : pipelines (trace st1) = pipelines (trace st)).
    { rewrite Htr, pipelines_app, pipelines_cmds. lia. }
    destruct (search _ _ _ _) as [k|]; destruct Hrun as [_ ->].
    + right. rewrite commit_run by congruence. cbv zeta.
      destruct (first_error _); [|destruct (session st1)]; simpl;
        rewrite pipelines_app; simpl;
        (repeat split; [done|by eexists|lia]).
    + left. simpl. split; congruence.
  - rewrite create_hash_unbound by done. by left.
Qed.

Lemma check_state_key_step : preserves key_step ShadowSessionDict._check_state.
Proof.
  intros st. unfold ShadowSessionDict._check_state, RedisDict._check_state,
    bind, get_state, modify, ret.
  destruct (redis st); [|reflexivity].
  destruct (key st) eqn:Hk; [reflexivity|].
  pose proof (create_hash_key_step st Hk) as Hc.
  pose proof (create_hash_cases st) as (_ & _ & _ & Hkey).
  destruct (ShadowSessionDict._create_hash st) as [[k|e] st1]; simpl in *;
    [|exact Hc].
  specialize (Hkey k eq_refl).
  destruct Hc as [[Hk1 Hp]|(_ & _ & Hp)]; [congruence|].
  right. repeat split; [done|by eexists|done].
Qed.

Lemma exists_key st :
  let out := ShadowSessionDict.exists_ st in
  match fst out with
  | Ok false => key (snd out) = None
  | _ => key (snd out) = key st
  end.
Proof.
  unfold ShadowSessionDict.exists_, RedisDict.exists_, ShadowSessionDict.owner,
    SecureCookieSession.__contains__, SecureCookieSession.__delitem__,
    self_key, call, bind, modify, ret. cbv zeta.
  destruct (key st) as [k|] eqn:Hk; [|done].
  destruct (redis st) eqn:Hr; [|done]. simpl.
  destruct (store st !! k) as [e|] eqn:He; simpl; [done|].
  destruct (session st) eqn:Hs; simpl; [|done].
  destruct (cookie st !! SHADOW_KEY_NAME) as [v|] eqn:Hc; simpl; [|done].
  rewrite Hs. simpl. by rewrite Hc.
Qed.

Lemma delete_key st :
  let out := ShadowSessionDict.delete_ st in
  match fst out with
  | Ok _ => key (snd out) = None
  | Raise _ => key (snd out) = key st
  end.
Proof.
  unfold ShadowSessionDict.delete_, RedisDict.delete_, ShadowSessionDict.owner,
    SecureCookieSession.__contains__, SecureCookieSession.__delitem__,
    self_key, call, bind, modify, ret. cbv zeta.
  destruct (key st) as [k|] eqn:Hk; [|done].
  destruct (redis st) eqn:Hr; [|done]. simpl.
  destruct (session st) eqn:Hs; simpl; [|done].
  destruct (cookie st !! SHADOW_KEY_NAME) as [v|] eqn:Hc; simpl; [|done].
  rewrite Hs. simpl. by rewrite Hc.
Qed.

Lemma save_key st : key (snd (ShadowSessionDict.save_session st)) = key st.
Proof.
  unfold ShadowSessionDict.save_session, bind, get_state, pipeline, execute, ret.
  cbn -[exec_all first_error].
  destruct (accessed st); [|done].
  destruct (key st) as [k|] eqn:Hk; [|done].
  destruct (redis st); [|done].
  cbn -[exec_all first_error].
  match goal with |- context [exec_all ?p (store st)] =>
    destruct (exec_all p (store st)) as [d rs] end.
  destruct (first_error rs); done.
Qed.

(** One operation keeps the invariant, when [delete()] counts. *)
Lemma observe_invariant o st h :
  key_invariant st h →
  key_invariant (snd (run_op o st)) (observe true o st (run_op o st) h).
Proof.
  unfold key_invariant. intros Hinv.
  assert (Hfield : ∀ A (m : M A),
    preserves key_step m →
    let out := (m ;;; ret (None : option bool)) st in
    key (snd out) = None ↔
    materialized (if bool_decide (pipelines (trace (snd out))
                                  = pipelines (trace st))
                  then h else History true false) = false
    ∨ lost (if bool_decide (pipelines (trace (snd out))
                            = pipelines (trace st))
            then h else History true false) = true).
  { intros A m Hm. specialize (Hm st). cbv zeta. unfold bind.
    destruct (m st) as [[a|e] st1]; simpl in *;
      (destruct Hm as [[Hk Hp]|(Hk & Hs & Hp)];
       [ rewrite bool_decide_eq_true_2, Hk by done; exact Hinv
       | rewrite bool_decide_eq_false_2 by lia; simpl;
         destruct Hs as [k ->]; split; [done|by intros [|]] ]). }
  destruct o as [m|f|f v|f| | |]; simpl.
  - (* open *)
    unfold bind, ShadowSessionDict.open_session, modify. simpl.
    destruct (cookie st !! SHADOW_KEY_NAME); simpl; split;
      try done; try (by left); by intros [|].
  - apply (Hfield _ (ShadowSessionDict.__getitem__ f)).
    apply preserves_getitem;
      first [ apply _ | apply call_key_step | apply touch_key_step
            | apply check_state_key_step ].
  - apply (Hfield _ (ShadowSessionDict.__setitem__ f v)).
    apply preserves_setitem;
      first [ apply _ | apply call_key_step | apply touch_key_step
            | apply check_state_key_step ].
  - apply (Hfield _ (ShadowSessionDict.__delitem__ f)).
    apply preserves_delitem;
      first [ apply _ | apply call_key_step | apply touch_key_step
            | apply check_state_key_step ].
  - (* exists *)
    pose proof (exists_key st) as He. cbv zeta in He. unfold bind.
    destruct (ShadowSessionDict.exists_ st) as [[[|]|e] st1]; simpl in *.
    + by rewrite He.
    + split; [by right|done].
    + by rewrite He.
  - (* delete *)
    pose proof (delete_key st) as Hd. cbv zeta in Hd. unfold bind.
    destruct (ShadowSessionDict.delete_ st) as [[[]|e] st1]; simpl in *.
    + split; [by right|done].
    + by rewrite Hd.
  - (* save *)
    pose proof (save_key st) as Hs. unfold bind.
    destruct (ShadowSessionDict.save_session st) as [[[]|e] st1]; simpl in *;
      by rewrite Hs.
Qed.

End KeyStep.

Lemma open_invariant {hooks : Hooks} m st h :
  key_invariant (snd (run_op (OpOpen m) st))
    (observe true (OpOpen m) st (run_op (OpOpen m) st) h).
Proof.
  unfold key_invariant. simpl.
  unfold bind, ShadowSessionDict.open_session, modify. simpl.
  destruct (cookie st !! SHADOW_KEY_NAME); simpl; split;
    try done; try (by left); by intros [|].
Qed.

Lemma run_invariant {hooks : Hooks} os : ∀ st h,
  key_invariant st h →
  key_invariant (fst (run true os st h)) (snd (run true os st h)).
Proof.
  induction os as [|o os IH]; intros st h Hinv; simpl; [done|].
  apply IH. by apply observe_invariant.
Qed.



(** C9, as stated, fails across [delete()]: after the record was opened,
    a field written and the record deleted, [key] is [None] although a
    key was materialized and no [exists()] ever found the record gone. *)
Lemma key_none_after_delete :
  ¬ key_invariant
      (fst (run (hooks := base_hooks) false write_then_delete
              (constructed tally) (History false false)))
      (snd (run (hooks := base_hooks) false write_then_delete
              (constructed tally) (History false false))).
Proof.
  assert (Hk : key (fst (run (hooks := base_hooks) false write_then_delete
                           (constructed tally) (History false false))) = None)
    by (vm_compute; reflexivity).
  assert (Hh : snd (run (hooks := base_hooks) false write_then_delete
                      (constructed tally) (History false false))
               = History true false)
    by (vm_compute; reflexivity).
  unfold key_invariant. rewrite Hk, Hh. simpl.
  intros [H _]. by destruct (H eq_refl).
Qed.

(** C9, amended.  Observe a record from its opening on, through any
    sequence of field reads, writes and deletes, [exists()], [delete()],
    [save_session] and further openings.  At every point [key] is [None]
    exactly when no key has been materialized for the record (loaded from
    the cookie at opening, or created by a field access) since it was
    opened, or the record was found gone since: by an [exists()] that
    answered false or by a [delete()]. *)
Theorem key_none_invariant {hooks : Hooks}
    (m : option Z) (os : list op) (st : state) (h : history) :
  key_invariant (fst (run true [OpOpen m] st h)) (snd (run true [OpOpen m] st h))
  ∧ key_invariant (fst (run true (OpOpen m :: os) st h))
                  (snd (run true (OpOpen m :: os) st h)).
Proof.
  split.
  - apply open_invariant.
  - cbn [run]. apply run_invariant, open_invariant.
Qed.

(** * The properties at work on the example states *)

Lemma session_routing_witness :
  ∃ st',
    (ShadowSession.__setitem__ (hooks := base_hooks) "a" "1" ;;;
     ShadowSession.__getitem__ (hooks := base_hooks) "a") (opened tally)
      = (Ok "1", st')
    ∧ cookie st' = <[ "a" := "1" ]> (cookie (opened tally))
    ∧ trace st' = trace (opened tally)
    ∧ store st' = store (opened tally).
Proof.
  apply (proj1 (proj2 (proj2 (proj2 (session_routing (hooks := base_hooks)))))).
  intros H. apply forced_fields in H. discriminate.
Defined.

Lemma create_hash_candidates_witness :
  fst (ShadowSessionDict._create_hash (hooks := base_hooks) crowded)
    = Raise generation_exhausted.
Proof.
  apply (create_hash_candidates (hooks := base_hooks) crowded eq_refl).
  intros i _ [_ Hfree]. vm_compute in Hfree. discriminate.
Defined.



Lemma save_session_effects_witness :
  ShadowSessionDict.save_session (hooks := base_hooks) stored = (Ok tt, stored)
  ∧ trace (snd (ShadowSessionDict.save_session (hooks := base_hooks) touched))
    = [Pipeline [EXPIRE "old" 3600]].
Proof.
  split.
  - apply (save_session_effects (hooks := base_hooks) stored). by left.
  - apply (proj2 (save_session_effects (hooks := base_hooks) touched) "old");
      reflexivity.
Defined.

Lemma exists_delete_reset_witness :
  fst (ShadowSessionDict.exists_ orphaned) = Ok false
  ∧ ∃ st',
      ShadowSessionDict.delete_ stored = (Ok tt, st')
      ∧ key st' = None
      ∧ cookie st' = delete SHADOW_KEY_NAME (cookie stored)
      ∧ store st' = delete "old" (store stored).
Proof.
  split.
  - apply (proj1 (exists_delete_reset (hooks := base_hooks) orphaned) "old");
      reflexivity.
  - apply (proj2 (proj2 (exists_delete_reset (hooks := base_hooks) stored)));
      reflexivity.
Defined.


Lemma open_session_coordinator_witness :
  ∃ st',
    ShadowSessionInterface.open_session (hooks := base_hooks)
      unit decode_empty zero_override default_app tt (constructed tally)
    = (Ok (Some PyShadowSession), st')
    ∧ permanent st' = false
    ∧ cookie st' = <["_permanent" := "False"]> ∅
    ∧ max_age st' = Some 2678400.
Proof.
  destruct (proj2 (open_session_coordinator (hooks := base_hooks)
                     unit decode_empty zero_override
                     default_app tt (constructed tally)) ∅ eq_refl)
    as (m & _ & Hzero & _ & _ & Hopen).
  destruct (Hopen eq_refl) as (st' & Heq & Hperm & Hcookie & _ & _ & Hmax & _).
  exists st'. split; [exact Heq|]. split; [exact Hperm|].
  split; [exact Hcookie|].
  rewrite Hmax, (Hzero eq_refl). reflexivity.
Defined.

Lemma regenerate_key_keeps_accessed_witness :
  accessed (snd (ShadowSessionDict.regenerate_key (hooks := base_hooks) stored))
    = false
  ∧ ShadowSessionDict.save_session (hooks := base_hooks)
      (snd (ShadowSessionDict.regenerate_key (hooks := base_hooks) stored))
    = (Ok tt, snd (ShadowSessionDict.regenerate_key (hooks := base_hooks) stored)).
Proof.
  destruct (regenerate_key_keeps_accessed (hooks := base_hooks) stored eq_refl)
    as (Hacc & Hsave & _).
  split; [exact Hacc|exact Hsave].
Defined.

(** A request that writes a flash message and a later one that pops it:
    the message goes through the store and the record ends up empty. *)
Example flash_round_trip :
  let request1 :=
    (ShadowSession.__setitem__ (hooks := base_hooks) "_flashes" "hello" ;;;
     ShadowSessionDict.save_session (hooks := base_hooks)) (opened tally) in
  let request2 :=
    (ShadowSessionDict.open_session PyShadowSession PyRedis (Some 3600) ;;;
     v <- ShadowSession.pop (hooks := base_hooks) "_flashes" None ;;
     n <- ShadowSessionDict.__len__ (hooks := base_hooks) ;;
     ret (v, n)) (snd request1) in
  fst request1 = Ok tt
  ∧ cookie (snd request1) = {[ "shadow_key" := "k" ]}
  ∧ fst request2 = Ok ("hello", 0).
Proof. vm_compute. done. Qed.

(** Rotating the key of a record that has a key but nothing stored: the
    store refuses the rename. *)
Example regenerate_key_without_record :
  fst (ShadowSessionDict.regenerate_key (hooks := base_hooks) orphaned)
    = Raise (ResponseError "ERR no such key").
Proof. vm_compute. reflexivity. Qed.

(** * Further properties of the module *)

(** ** Writing and reading fields of the shadow *)

(** When [_check_state] returns, the record has a client and a key. *)
Lemma check_state_ok {hooks : Hooks} st st1 :
  ShadowSessionDict._check_state st = (Ok tt, st1) →
  redis st1 = true ∧ is_Some (key st1) ∧ session st1 = session st
  ∧ accessed st1 = accessed st.
Proof.
  unfold ShadowSessionDict._check_state, RedisDict._check_state,
    bind, get_state, modify, ret.
  destruct (redis st) eqn:Hr; [|discriminate].
  destruct (key st) as [k|] eqn:Hk.
  - intros [= <-]. rewrite Hk. repeat split; try done; by eexists.
  - pose proof (create_hash_cases st) as (Hac & Hre & Hse & _).
    destruct (ShadowSessionDict._create_hash st) as [[k|e] st2];
      simpl in *; [|discriminate].
    intros [= <-]. simpl. repeat split; try congruence; by eexists.
Qed.

(** What a write that returned has left behind. *)
Lemma setitem_ok_inv {hooks : Hooks} f v st st' :
  ShadowSessionDict.__setitem__ f v st = (Ok tt, st') →
  ∃ k h t,
    session st' = true ∧ redis st' = true ∧ key st' = Some k
    ∧ store st' !! k = Some (Entry (RHash h) t) ∧ h !! f = Some v.
Proof.
  unfold ShadowSessionDict.__setitem__, ShadowSessionDict.touch,
    RedisDict.__setitem__, bind, modify. simpl.
  destruct (session st) eqn:Hs; [|discriminate].
  destruct (ShadowSessionDict._check_state _) as [[[]|e] st1] eqn:Hc;
    [|discriminate].
  apply check_state_ok in Hc. simpl in Hc.
  destruct Hc as (Hr1 & [k Hk1] & Hs1 & _).
  unfold self_key, call, bind, ret. rewrite Hk1, Hr1. simpl.
  destruct (store st1 !! k) as [[[s|h] t]|] eqn:He; simpl; [discriminate| |].
  - intros [= <-]. simpl. exists k, (<[f := v]> h), t.
    rewrite !lookup_insert_eq. repeat split; try done; congruence.
  - intros [= <-]. simpl. exists k, {[f := v]}, None.
    rewrite lookup_insert_eq, lookup_singleton_eq.
    repeat split; try done; congruence.
Qed.

(** X1. A field that was written is read back: when [shadow[f] = v]
    returns, [shadow[f]] returns [v]. *)
Theorem setitem_getitem {hooks : Hooks} (f v : string) (st st' : state) :
  ShadowSessionDict.__setitem__ f v st = (Ok tt, st') →
  fst (ShadowSessionDict.__getitem__ f st') = Ok v.
Proof.
  intros Hset.
  destruct (setitem_ok_inv _ _ _ _ Hset) as (k & h & t & Hs & Hr & Hk & He & Hf).
  by eapply getitem_stored.
Qed.

(** ** The flags of a field access *)

(** The item methods of the base class, run with the subclass's
    [_check_state], keep what the calls on the client and [_check_state]
    keep. *)
Section BaseItems.
Context {hooks : Hooks}.
Variable R : state → state → Prop.
Context `{!PreOrder R}.
Hypothesis R_call : ∀ c, preserves R (call c).
Hypothesis R_check : preserves R ShadowSessionDict._check_state.

Lemma preserves_base_getitem f :
  preserves R (RedisDict.__getitem__ ShadowSessionDict._check_state f).
Proof.
  unfold RedisDict.__getitem__.
  repeat (apply (preserves_bind R);
          [done || apply (preserves_self_key R)|intros ?]).
  match goal with |- preserves _ (match ?r with _ => _ end) =>
    destruct r as [?|[?|]|?] end;
    apply (preserves_ret R) || apply (preserves_raise R).
Qed.

Lemma preserves_base_setitem f v :
  preserves R (RedisDict.__setitem__ ShadowSessionDict._check_state f v).
Proof.
  unfold RedisDict.__setitem__.
  repeat (apply (preserves_bind R);
          [done || apply (preserves_self_key R)|intros ?]).
  apply (preserves_ret R).
Qed.

Lemma preserves_base_delitem f :
  preserves R (RedisDict.__delitem__ ShadowSessionDict._check_state f).
Proof.
  unfold RedisDict.__delitem__.
  repeat (apply (preserves_bind R);
          [done || apply (preserves_self_key R)|intros ?]).
  apply (preserves_ret R).
Qed.

End BaseItems.

#[local] Instance flags_kept_preorder : PreOrder flags_kept.
Proof.
  split.
  - by intros st.
  - intros s1 s2 s3 [Ha1 Hm1] [Ha2 Hm2]. split; auto.
Qed.

Lemma call_flags_kept c : preserves flags_kept (call c).
Proof.
  intros st. unfold call. destruct (redis st); [|reflexivity].
  destruct (exec c (store st)) as [d []]; by split.
Qed.

Lemma create_hash_flags_kept {hooks : Hooks} :
  preserves flags_kept ShadowSessionDict._create_hash.
Proof.
  intros st. destruct (redis st) eqn:Hr.
  - destruct (create_hash_run st Hr) as (st1 & cmds & Hobj & _ & _ & Hrun).
    apply objects_eq in Hobj.
    destruct Hobj as (_ & Hmo & _ & _ & Hac & Hre & _).
    destruct (search _ _ _ _) as [k|]; destruct Hrun as [_ ->].
    + rewrite commit_run by congruence. cbv zeta.
      destruct (first_error _); [|destruct (session st1)]; simpl;
        split; simpl; congruence.
    + split; simpl; congruence.
  - rewrite create_hash_unbound by done. by split.
Qed.

Lemma check_state_flags_kept {hooks : Hooks} :
  preserves flags_kept ShadowSessionDict._check_state.
Proof.
  intros st. unfold ShadowSessionDict._check_state, RedisDict._check_state,
    bind, get_state, modify, ret.
  destruct (redis st); [|reflexivity].
  destruct (key st); [reflexivity|].
  pose proof (create_hash_flags_kept st) as Hc.
  destruct (ShadowSessionDict._create_hash st) as [[k|e] st1]; exact Hc.
Qed.

(** X2. On an opened record every field read, write and delete leaves
    [accessed] and the session's [modified] true, whether it returns or
    raises.  On a record that was never opened it raises
    [AttributeError], sends nothing, and has set [accessed] all the
    same. *)
Theorem field_access_flags {hooks : Hooks} (f v : string) (st : state) :
  (session st = true →
     (accessed (snd (ShadowSessionDict.__getitem__ f st)) = true
      ∧ modified (snd (ShadowSessionDict.__getitem__ f st)) = true)
     ∧ (accessed (snd (ShadowSessionDict.__setitem__ f v st)) = true
        ∧ modified (snd (ShadowSessionDict.__setitem__ f v st)) = true)
     ∧ (accessed (snd (ShadowSessionDict.__delitem__ f st)) = true
        ∧ modified (snd (ShadowSessionDict.__delitem__ f st)) = true))
  ∧ (session st = false →
     ShadowSessionDict.__getitem__ f st
       = (Raise AttributeError, set_accessed true st)
     ∧ ShadowSessionDict.__setitem__ f v st
       = (Raise AttributeError, set_accessed true st)
     ∧ ShadowSessionDict.__delitem__ f st
       = (Raise AttributeError, set_accessed true st)).
Proof.
  split; intros Hs.
  - assert (Hrest : ∀ A (m : M A), preserves flags_kept m →
      accessed (snd ((ShadowSessionDict.touch ;;; m) st)) = true
      ∧ modified (snd ((ShadowSessionDict.touch ;;; m) st)) = true).
    { intros A m Hm. unfold ShadowSessionDict.touch, bind, modify. simpl.
      rewrite Hs.
      destruct (Hm (set_modified true (set_accessed true st))) as [Ha Hmo].
      split; [by apply Ha|by apply Hmo]. }
    repeat split; apply Hrest;
      first [ apply preserves_base_getitem | apply preserves_base_setitem
            | apply preserves_base_delitem ];
      first [ apply _ | apply call_flags_kept | apply check_state_flags_kept ].
  - unfold ShadowSessionDict.__getitem__, ShadowSessionDict.__setitem__,
      ShadowSessionDict.__delitem__, ShadowSessionDict.touch, bind, modify.
    simpl. by rewrite Hs.
Qed.

(** ** The first access of a record without a key *)

(** The lazy creation of the key, field by field of the state. *)
Lemma check_state_fresh {hooks : Hooks} st new_key :
  (∀ s, _on_create_hash s = []) →
  session st = true → redis st = true → key st = None →
  search (store st) (entropy st) (drawn st) 100 = Some new_key →
  ∃ st2,
    ShadowSessionDict._check_state st = (Ok tt, st2)
    ∧ key st2 = Some new_key
    ∧ cookie st2 = <[SHADOW_KEY_NAME := new_key]> (cookie st)
    ∧ store st2 = store st
    ∧ session st2 = true ∧ redis st2 = true
    ∧ accessed st2 = accessed st ∧ modified st2 = true
    ∧ max_age st2 = max_age st
    ∧ ∃ cmds,
        trace st2
        = trace st ++ (Cmd <$> cmds)
          ++ [Pipeline (match max_age st with
                        | Some m => [EXPIRE new_key m]
                        | None => []
                        end ++ [DEL (reserve_key_of new_key)])].
Proof.
  intros Hhook Hs Hr Hk Hsearch.
  destruct (create_hash_run st Hr) as (st1 & cmds & Hobj & _ & Htr & Hrun).
  rewrite Hsearch in Hrun. destruct Hrun as [Hstore Hrun].
  apply objects_eq in Hobj.
  destruct Hobj as (Hck & _ & Hpe & Hse & Hac & Hre & Hk1 & Hma & _).
  destruct (search_Some _ _ _ _ _ Hsearch) as (i & _ & _ & Hacc & _).
  apply accepted_spec in Hacc. destruct Hacc as [Hres Hnew].
  destruct (create_pipeline (store st) new_key (max_age st1) Hnew Hres)
    as [Hfst Herr].
  unfold ShadowSessionDict._check_state, RedisDict._check_state, bind, get_state.
  rewrite Hr, Hk, Hrun, commit_run by congruence.
  unfold described_pipeline. rewrite Hk1, Hk, Hhook, Hstore. cbv zeta.
  simpl app. rewrite Herr, Hfst, Hse, Hs.
  eexists. split; [reflexivity|]. simpl.
  repeat split; try congruence.
  exists cmds. by rewrite Htr, Hma, <- app_assoc.
Qed.

(** The first write of a record without a key. *)
Lemma setitem_fresh {hooks : Hooks} st new_key f v :
  (∀ s, _on_create_hash s = []) →
  session st = true → redis st = true → key st = None →
  search (store st) (entropy st) (drawn st) 100 = Some new_key →
  ∃ st3,
    ShadowSessionDict.__setitem__ f v st = (Ok tt, st3)
    ∧ key st3 = Some new_key
    ∧ cookie st3 = <[SHADOW_KEY_NAME := new_key]> (cookie st)
    ∧ store st3 = <[new_key := Entry (RHash {[f := v]}) None]> (store st)
    ∧ session st3 = true ∧ redis st3 = true
    ∧ accessed st3 = true ∧ modified st3 = true
    ∧ max_age st3 = max_age st
    ∧ ∃ cmds,
        trace st3
        = trace st ++ (Cmd <$> cmds)
          ++ [Pipeline (match max_age st with
                        | Some m => [EXPIRE new_key m]
                        | None => []
                        end ++ [DEL (reserve_key_of new_key)]);
              Cmd (HSET new_key f v)].
Proof.
  intros Hhook Hs Hr Hk Hsearch.
  set (stt := set_modified true (set_accessed true st)).
  destruct (check_state_fresh stt new_key Hhook Hs Hr Hk Hsearch)
    as (st2 & Heq & Hk2 & Hc2 & Hst2 & Hs2 & Hr2 & Hac2 & Hmo2 & Hma2
        & cmds & Htr2).
  assert (Hnew : store st2 !! new_key = None).
  { destruct (search_Some _ _ _ _ _ Hsearch) as (i & _ & _ & Hacc & _).
    apply accepted_spec in Hacc. destruct Hacc as [_ Hnew]. by rewrite Hst2. }
  unfold ShadowSessionDict.__setitem__, ShadowSessionDict.touch,
    RedisDict.__setitem__, self_key, call, bind, modify, ret.
  simpl. rewrite Hs. fold stt. rewrite Heq, Hk2, Hr2. simpl. rewrite Hnew.
  eexists. split; [reflexivity|]. simpl.
  repeat split; try done; [by rewrite Hst2|].
  exists cmds. rewrite Htr2. simpl. by rewrite <- !app_assoc.
Qed.


(** X4. Reading a field of a record without a key raises [KeyError], and
    has created a key all the same: the key is in the cookie-side session,
    both flags are set, and the store holds no record for it. *)
Theorem getitem_fresh {hooks : Hooks} (st : state) (new_key f : string) :
  (∀ s, _on_create_hash s = []) →
  session st = true → redis st = true → key st = None →
  search (store st) (entropy st) (drawn st) 100 = Some new_key →
  ∃ st',
    ShadowSessionDict.__getitem__ f st = (Raise (KeyError f), st')
    ∧ key st' = Some new_key
    ∧ cookie st' = <[SHADOW_KEY_NAME := new_key]> (cookie st)
    ∧ accessed st' = true ∧ modified st' = true
    ∧ store st' = store st
    ∧ store st' !! new_key = None.
Proof.
  intros Hhook Hs Hr Hk Hsearch.
  set (stt := set_modified true (set_accessed true st)).
  destruct (check_state_fresh stt new_key Hhook Hs Hr Hk Hsearch)
    as (st2 & Heq & Hk2 & Hc2 & Hst2 & Hs2 & Hr2 & Hac2 & Hmo2 & _).
  assert (Hnew : store st2 !! new_key = None).
  { destruct (search_Some _ _ _ _ _ Hsearch) as (i & _ & _ & Hacc & _).
    apply accepted_spec in Hacc. destruct Hacc as [_ Hnew]. by rewrite Hst2. }
  unfold ShadowSessionDict.__getitem__, ShadowSessionDict.touch,
    RedisDict.__getitem__, self_key, call, bind, modify, ret, raise.
  simpl. rewrite Hs. fold stt. rewrite Heq, Hk2, Hr2. simpl. rewrite Hnew.
  eexists. split; [reflexivity|]. simpl.
  repeat split; try done; by rewrite <- Hst2.
Qed.

(** ** What key creation leaves in the store *)

(** The rename pipeline when the previous key holds nothing. *)
Lemma failed_rename_pipeline (d : gmap string entry) old new (m : option Z) :
  d !! old = None →
  d !! new = None →
  d !! reserve_key_of new = None →
  old ≠ reserve_key_of new →
  let p := [RENAMENX old new]
           ++ match m with Some s => [EXPIRE new s] | None => [] end
           ++ [DEL (reserve_key_of new)] in
  fst (exec_all p (<[reserve_key_of new := marker]> d)) = d
  ∧ first_error (snd (exec_all p (<[reserve_key_of new := marker]> d)))
    = Some "ERR no such key".
Proof.
  intros Hold Hnew Hres Hne p. unfold p.
  assert (Hne3 : reserve_key_of new ≠ new) by apply reserve_key_ne.
  destruct m as [s|]; simpl.
  - rewrite lookup_insert_ne, Hold by done. simpl.
    rewrite lookup_insert_ne, Hnew by done. simpl.
    rewrite lookup_insert_eq. simpl. by rewrite delete_insert_id.
  - rewrite lookup_insert_ne, Hold by done. simpl.
    rewrite lookup_insert_eq. simpl. by rewrite delete_insert_id.
Qed.

(** X5. [regenerate_key] on a record whose key holds nothing in the store
    (expired, or never written) raises the store's "no such key" error.
    The store is left as it was and the cookie-side session still carries
    what it carried, but [key] is already the new key. *)
Theorem regenerate_key_missing_record {hooks : Hooks} (st : state)
    (old new_key : string) :
  redis st = true →
  key st = Some old →
  store st !! old = None →
  search (store st) (entropy st) (drawn st) 100 = Some new_key →
  old ≠ reserve_key_of new_key →
  ∃ st',
    ShadowSessionDict.regenerate_key st
      = (Raise (ResponseError "ERR no such key"), st')
    ∧ key st' = Some new_key
    ∧ cookie st' = cookie st
    ∧ modified st' = modified st
    ∧ store st' = store st.
Proof.
  intros Hr Hk Hold Hsearch Hne.
  destruct (create_hash_run st Hr) as (st1 & cmds & Hobj & _ & _ & Hrun).
  rewrite Hsearch in Hrun. destruct Hrun as [Hstore Hrun].
  apply objects_eq in Hobj.
  destruct Hobj as (Hck & Hmo & _ & Hse & _ & Hre & Hk1 & Hma & _).
  destruct (search_Some _ _ _ _ _ Hsearch) as (i & _ & _ & Hacc & _).
  apply accepted_spec in Hacc. destruct Hacc as [Hres Hnew].
  destruct (failed_rename_pipeline (store st) old new_key (max_age st1)
              Hold Hnew Hres Hne) as [Hfst Herr].
  unfold ShadowSessionDict.regenerate_key.
  rewrite Hrun, commit_run by congruence.
  unfold described_pipeline. rewrite Hk1, Hk, Hstore. cbv zeta.
  rewrite Herr, Hfst.
  eexists. split; [reflexivity|]. simpl. repeat split; congruence.
Qed.

(** X6. Key creation leaves no reservation marker behind: when the
    record had no key, or when the 100 attempts are exhausted, the store
    after [_create_hash] is the store before it. *)
Theorem create_hash_restores_store {hooks : Hooks} (st : state) :
  (∀ s, _on_create_hash s = []) →
  redis st = true →
  key st = None ∨ search (store st) (entropy st) (drawn st) 100 = None →
  store (snd (ShadowSessionDict._create_hash st)) = store st.
Proof.
  intros Hhook Hr Hcase.
  destruct (create_hash_run st Hr) as (st1 & cmds & Hobj & _ & _ & Hrun).
  apply objects_eq in Hobj.
  destruct Hobj as (_ & _ & _ & _ & _ & Hre & Hk1 & _).
  destruct (search (store st) (entropy st) (drawn st) 100) as [k|] eqn:Hsearch.
  - destruct Hcase as [Hk|?]; [|done]. destruct Hrun as [Hstore ->].
    destruct (search_Some _ _ _ _ _ Hsearch) as (i & _ & _ & Hacc & _).
    apply accepted_spec in Hacc. destruct Hacc as [Hres Hnew].
    destruct (create_pipeline (store st) k (max_age st1) Hnew Hres)
      as [Hfst Herr].
    rewrite commit_run by congruence.
    unfold described_pipeline. rewrite Hk1, Hk, Hhook, Hstore. cbv zeta.
    simpl app. rewrite Herr, Hfst. by destruct (session st1).
  - by destruct Hrun as [Hstore ->].
Qed.

(** ** [exists()] and [delete()] in use *)

(** X7. On a record that is in the store [exists()] answers true and
    touches nothing: the attributes of the session and of the shadow,
    "shadow_key" in the cookie included, and the store are as before. *)
Theorem exists_live_record (st : state) (k : string) (e : entry) :
  redis st = true →
  key st = Some k →
  store st !! k = Some e →
  ∃ st',
    ShadowSessionDict.exists_ st = (Ok true, st')
    ∧ objects st' = objects st
    ∧ store st' = store st
    ∧ trace st' = trace st ++ [Cmd (EXISTS k)].
Proof.
  intros Hr Hk He.
  unfold ShadowSessionDict.exists_, RedisDict.exists_, self_key, call,
    bind, modify, ret.
  rewrite Hk, Hr. simpl. rewrite He. simpl.
  eexists. split; [reflexivity|]. done.
Qed.

(** X8. Deleting the last field of a record empties it, and the store
    drops an empty hash: an [exists()] right after answers false, takes
    "shadow_key" out of the cookie-side session and resets [key]. *)
Theorem delitem_last_field {hooks : Hooks} (st : state) (k f : string)
    (h : gmap string string) (t : option Z) :
  session st = true → redis st = true →
  key st = Some k →
  store st !! k = Some (Entry (RHash h) t) →
  delete f h = ∅ →
  ∃ st',
    (ShadowSessionDict.__delitem__ f ;;; ShadowSessionDict.exists_) st
      = (Ok false, st')
    ∧ key st' = None
    ∧ cookie st' = delete SHADOW_KEY_NAME (cookie st)
    ∧ store st' = delete k (store st).
Proof.
  intros Hs Hr Hk He Hempty.
  unfold ShadowSessionDict.__delitem__, ShadowSessionDict.touch,
    RedisDict.__delitem__, ShadowSessionDict._check_state,
    RedisDict._check_state, ShadowSessionDict.exists_, RedisDict.exists_,
    ShadowSessionDict.owner, SecureCookieSession.__contains__,
    SecureCookieSession.__delitem__, self_key, call, bind, modify,
    get_state, ret.
  simpl.
  repeat (first [ rewrite Hs | rewrite Hr | rewrite Hk | rewrite He
                | rewrite (bool_decide_eq_true_2 _ Hempty)
                | rewrite lookup_delete_eq ]; simpl).
  destruct (cookie st !! SHADOW_KEY_NAME) eqn:Hc; simpl.
  - repeat (first [rewrite Hs | rewrite Hc]; simpl).
    eexists. split; [reflexivity|]. done.
  - eexists. split; [reflexivity|]. simpl. repeat split; try done.
    by rewrite delete_id.
Qed.

(** [delete()] on an opened record that has a key. *)
Lemma delete_run st k :
  session st = true → redis st = true → key st = Some k →
  ∃ st1,
    ShadowSessionDict.delete_ st = (Ok tt, st1)
    ∧ key st1 = None
    ∧ cookie st1 = delete SHADOW_KEY_NAME (cookie st)
    ∧ store st1 = delete k (store st)
    ∧ session st1 = true ∧ redis st1 = true
    ∧ entropy st1 = entropy st ∧ drawn st1 = drawn st.
Proof.
  intros Hs Hr Hk.
  unfold ShadowSessionDict.delete_, RedisDict.delete_, ShadowSessionDict.owner,
    SecureCookieSession.__contains__, SecureCookieSession.__delitem__,
    self_key, call, bind, modify, ret.
  rewrite Hk, Hr. simpl. rewrite Hs. simpl.
  destruct (cookie st !! SHADOW_KEY_NAME) eqn:Hc; simpl.
  - rewrite Hs. simpl. rewrite Hc. eexists. split; [reflexivity|]. done.
  - eexists. split; [reflexivity|]. simpl. repeat split; try done.
    by rewrite delete_id.
Qed.

(** X9. After [delete()] the next write starts a new record: it is stored
    under a newly generated key, which replaces "shadow_key" in the
    cookie-side session, and nothing is left under the old key. *)
Theorem delete_then_write {hooks : Hooks} (st : state)
    (old new_key f v : string) :
  (∀ s, _on_create_hash s = []) →
  session st = true → redis st = true →
  key st = Some old →
  search (delete old (store st)) (entropy st) (drawn st) 100 = Some new_key →
  ∃ st',
    (ShadowSessionDict.delete_ ;;; ShadowSessionDict.__setitem__ f v) st
      = (Ok tt, st')
    ∧ key st' = Some new_key
    ∧ cookie st' !! SHADOW_KEY_NAME = Some new_key
    ∧ store st'
      = <[new_key := Entry (RHash {[f := v]}) None]> (delete old (store st))
    ∧ (new_key ≠ old → store st' !! old = None).
Proof.
  intros Hhook Hs Hr Hk Hsearch.
  destruct (delete_run st old Hs Hr Hk)
    as (st1 & Hdel & Hk1 & Hc1 & Hst1 & Hs1 & Hr1 & Hen1 & Hdr1).
  rewrite <- Hst1, <- Hen1, <- Hdr1 in Hsearch.
  destruct (setitem_fresh st1 new_key f v Hhook Hs1 Hr1 Hk1 Hsearch)
    as (st' & Hset & Hk' & Hc' & Hst' & _).
  exists st'. unfold bind. rewrite Hdel, Hset.
  repeat split; try done.
  - rewrite Hc'. by rewrite lookup_insert_eq.
  - by rewrite Hst', Hst1.
  - intros Hne. rewrite Hst', Hst1.
    rewrite lookup_insert_ne by done. by rewrite lookup_delete_eq.
Qed.

(** ** The older module: a key that outlives its record *)

(** X10. In the older module [delete()] removes the record and
    "shadow_key" from the cookie-side session and keeps [key].  A field
    written next is stored under that same key, which the cookie-side
    session no longer carries.  ([_check_state] of the base class is any
    method that does nothing on a record with a client and a key.) *)
Theorem legacy_delete_keeps_key (_check_state : M unit) (st : state)
    (k f v : string) :
  (∀ s, redis s = true → is_Some (key s) → _check_state s = (Ok tt, s)) →
  session st = true → redis st = true →
  key st = Some k →
  ∃ st1 st2,
    Legacy.delete_ st = (Ok tt, st1)
    ∧ key st1 = Some k
    ∧ store st1 !! k = None
    ∧ Legacy.__setitem__ _check_state f v st1 = (Ok tt, st2)
    ∧ key st2 = Some k
    ∧ store st2 !! k = Some (Entry (RHash {[f := v]}) None)
    ∧ cookie st2 !! SHADOW_KEY_NAME = None.
Proof.
  intros Hcheck Hs Hr Hk.
  assert (Hdel : ∃ st1,
    Legacy.delete_ st = (Ok tt, st1) ∧ key st1 = Some k
    ∧ store st1 = delete k (store st)
    ∧ cookie st1 = delete SHADOW_KEY_NAME (cookie st)
    ∧ session st1 = true ∧ redis st1 = true).
  { unfold Legacy.delete_, RedisDict.delete_, ShadowSessionDict.owner,
      SecureCookieSession.__contains__, SecureCookieSession.__delitem__,
      self_key, call, bind, modify, ret.
    rewrite Hk, Hr. simpl. rewrite Hs. simpl.
    destruct (cookie st !! SHADOW_KEY_NAME) eqn:Hc; simpl.
    - rewrite Hs. simpl. rewrite Hc. eexists. split; [reflexivity|]. done.
    - eexists. split; [reflexivity|]. simpl. repeat split; try done.
      by rewrite delete_id. }
  destruct Hdel as (st1 & Hdel & Hk1 & Hst1 & Hc1 & Hs1 & Hr1).
  exists st1.
  set (stt := set_modified true (set_accessed true st1)).
  assert (Hchk : _check_state stt = (Ok tt, stt)).
  { apply Hcheck; simpl; [done|]. rewrite Hk1. by eexists. }
  assert (Hset : Legacy.__setitem__ _check_state f v st1
    = (Ok tt,
       set_store (<[k := Entry (RHash {[f := v]}) None]> (delete k (store st)))
         (set_trace (trace st1 ++ [Cmd (HSET k f v)]) stt))).
  { unfold Legacy.__setitem__, ShadowSessionDict.touch, RedisDict.__setitem__,
      self_key, call, bind, modify, ret.
    simpl. rewrite Hs1. fold stt. rewrite Hchk. simpl.
    repeat (first [ rewrite Hk1 | rewrite Hr1 | rewrite Hst1
                  | rewrite lookup_delete_eq ]; simpl).
    reflexivity. }
  eexists. split; [exact Hdel|]. split; [exact Hk1|].
  split; [by rewrite Hst1, lookup_delete_eq|].
  split; [exact Hset|]. simpl. rewrite lookup_insert_eq.
  repeat split; try done.
  by rewrite Hc1, lookup_delete_eq.
Qed.

(** ** Whole requests *)

(** X11. A request that only opens the session and saves it sends
    nothing to the store, when the cookie collaborator's [save_session]
    leaves the session object alone.  The session it leaves is the
    decoded one with "_permanent" set to False, marked modified. *)
Theorem untouched_request {hooks : Hooks} {inherited : Inherited}
    (Request : Type)
    (super_open_session : Flask → Request → option (gmap string string))
    (super_save_session : Flask → M unit)
    (self : ShadowSessionInterface.t) (app : Flask) (request : Request)
    (data : gmap string string) (st : state) :
  super_open_session app request = Some data →
  isinstance_Redis (ShadowSessionInterface.redis self) = true →
  (∀ s, super_save_session app s = (Ok tt, s)) →
  ∃ st',
    (ShadowSessionInterface.open_session Request super_open_session
       self app request ;;;
     ShadowSessionInterface.save_session super_save_session self app) st
      = (Ok tt, st')
    ∧ trace st' = trace st ∧ store st' = store st
    ∧ cookie st' = <["_permanent" := "False"]> data
    ∧ modified st' = true.
Proof.
  intros Hopen Hr Hsave.
  unfold bind at 1.
  rewrite (interface_open_unfold _ _ _ _ _ data) by done.
  unfold ShadowSessionInterface.save_session,
    ShadowSessionDict.open_session, ShadowSessionDict.save_session,
    SecureCookieSession.get, bind, modify, get_state, ret.
  rewrite Hr. simpl. rewrite Hsave. simpl.
  eexists. split; [reflexivity|]. done.
Qed.




(** ** Forced fields through the session *)

(** X13. A forced field written through the session is read back through
    the session, and the write has left the cookie-side mapping without
    it: the mapping changed at "shadow_key" at most. *)
Theorem forced_field_round_trip {hooks : Hooks} (f v : string) (st st' : state) :
  f ∈ _force_shadow_fields →
  ShadowSession.__setitem__ f v st = (Ok tt, st') →
  fst (ShadowSession.__getitem__ f st') = Ok v
  ∧ cookie st' !! f = cookie st !! f
  ∧ ∀ g, g ≠ SHADOW_KEY_NAME → cookie st' !! g = cookie st !! g.
Proof.
  intros Hf. unfold ShadowSession.__setitem__, ShadowSession.__getitem__.
  rewrite bool_decide_eq_false_2 by (intros Hn; by apply Hn).
  intros Hset.
  assert (Hframe : cookie_frame st st').
  { pose proof (preserves_setitem cookie_frame call_cookie_frame
                  touch_cookie_frame check_state_cookie_frame f v st) as H.
    by rewrite Hset in H. }
  split; [|split].
  - destruct (setitem_ok_inv _ _ _ _ Hset)
      as (k & h & t & Hs & Hr & Hk & He & Hh).
    by eapply getitem_stored.
  - apply Hframe. apply forced_fields in Hf. by subst f.
  - exact Hframe.
Qed.

(** X14. [pop] of a stored field of the shadow returns its value and
    removes it: the record then has one field less and no longer
    contains the name.  This is what the flash messages go through. *)
Theorem shadow_pop_stored {hooks : Hooks} (st : state) (k f v : string)
    (h : gmap string string) (t : option Z) (args : option string) :
  session st = true → redis st = true →
  key st = Some k →
  store st !! k = Some (Entry (RHash h) t) →
  h !! f = Some v →
  ∃ st',
    ShadowSessionDict.pop f args st = (Ok v, st')
    ∧ fst (ShadowSessionDict.__contains__ f st') = Ok false
    ∧ fst (ShadowSessionDict.__len__ st') = Ok (Z.of_nat (size h) - 1)
    ∧ accessed st' = true.
Proof.
  intros Hs Hr Hk He Hf.
  assert (Hpop : ShadowSessionDict.pop f args st
    = (Ok v,
       set_store (if bool_decide (delete f h = ∅) then delete k (store st)
                  else <[k := Entry (RHash (delete f h)) t]> (store st))
         (set_trace ((trace st ++ [Cmd (HGET k f)]) ++ [Cmd (HDEL k f)])
            (set_modified true (set_accessed true st))))).
  { unfold ShadowSessionDict.pop, RedisDict.pop, ShadowSessionDict.__getitem__,
      ShadowSessionDict.__delitem__, ShadowSessionDict.touch,
      RedisDict.__getitem__, RedisDict.__delitem__,
      ShadowSessionDict._check_state, RedisDict._check_state,
      self_key, call, bind, modify, get_state, ret.
    simpl.
    repeat (first [ rewrite Hs | rewrite Hr | rewrite Hk | rewrite He
                  | rewrite Hf ]; simpl).
    done. }
  eexists. split; [exact Hpop|].
  unfold ShadowSessionDict.__contains__, RedisDict.__contains__,
    ShadowSessionDict.__len__, RedisDict.__len__,
    ShadowSessionDict._check_state, RedisDict._check_state,
    self_key, call, bind, modify, get_state, ret.
  simpl. repeat (first [rewrite Hr | rewrite Hk]; simpl).
  assert (Hsize : Z.of_nat (size (delete f h)) = Z.of_nat (size h) - 1).
  { rewrite map_size_delete, Hf.
    assert (size h ≠ O) by (intros H0; apply map_size_empty_inv in H0;
                             subst h; by rewrite lookup_empty in Hf).
    lia. }
  destruct (bool_decide (delete f h = ∅)) eqn:Hd; simpl.
  - rewrite lookup_delete_eq. simpl. repeat split; try done.
    apply bool_decide_eq_true_1 in Hd. rewrite Hd, map_size_empty in Hsize.
    by rewrite <- Hsize.
  - rewrite lookup_insert_eq. simpl. rewrite lookup_delete_eq. simpl.
    repeat split; try done. by rewrite Hsize.
Qed.

(** ** The cost of key generation *)

Lemma attempts_none rk st :
  ShadowSessionDict.attempts 0 rk st = (Ok (None, rk), st).
Proof. vm_compute. reflexivity. Qed.

(** The loop sends at most three commands per iteration. *)
Lemma attempts_traffic n : ∀ rk st,
  redis st = true →
  ∃ cmds,
    trace (snd (ShadowSessionDict.attempts n rk st)) = trace st ++ (Cmd <$> cmds)
    ∧ (length cmds ≤ 3 * n)%nat
    ∧ redis (snd (ShadowSessionDict.attempts n rk st)) = true.
Proof.
  induction n as [|n IH]; intros rk st Hr.
  - rewrite attempts_none. exists []. simpl.
    repeat split; try lia; try done; by rewrite app_nil_r.
  - rewrite attempts_step by done. cbv zeta.
    set (c := entropy st (drawn st)).
    destruct (reservation_succeeds _ _); [destruct (candidate_exists _ _)|].
    + match goal with |- context [ShadowSessionDict.attempts n ?r ?s] =>
        destruct (IH r s) as (cmds & Htr & Hlen & Hre); [done|] end.
      exists (SETNX (reserve_key_of c) "1" :: EXISTS c
              :: DEL (reserve_key_of c) :: cmds).
      rewrite Htr. simpl. rewrite <- app_assoc.
      repeat split; try lia; done.
    + exists [SETNX (reserve_key_of c) "1"; EXISTS c]. simpl.
      repeat split; try lia; done.
    + match goal with |- context [ShadowSessionDict.attempts n ?r ?s] =>
        destruct (IH r s) as (cmds & Htr & Hlen & Hre); [done|] end.
      exists (SETNX (reserve_key_of c) "1" :: cmds).
      rewrite Htr. simpl. rewrite <- app_assoc.
      repeat split; try lia; done.
Qed.

(** X15. Creating a key costs at most 300 single commands and one
    pipeline, whatever the store holds and whatever the generator draws;
    what was sent before stays in front. *)
Theorem create_hash_traffic {hooks : Hooks} (st : state) :
  redis st = true →
  ∃ cmds rest,
    trace (snd (ShadowSessionDict._create_hash st))
      = trace st ++ (Cmd <$> cmds) ++ rest
    ∧ (length cmds ≤ 300)%nat
    ∧ ((∃ p, rest = [Pipeline p]) ∨ rest = []).
Proof.
  intros Hr.
  destruct (attempts_traffic 100 None st Hr) as (cmds & Htr & Hlen & Hre).
  exists cmds.
  unfold ShadowSessionDict._create_hash, bind.
  destruct (ShadowSessionDict.attempts 100 None st) as [[[[k|] rk]|e] st1];
    simpl in Htr, Hre.
  - rewrite commit_run by done. cbv zeta.
    eexists [Pipeline _].
    destruct (first_error _); [|destruct (session st1)]; simpl;
      rewrite Htr, <- app_assoc; repeat split; try lia; by left; eexists.
  - exists []. simpl. rewrite app_nil_r. repeat split; try lia; try done.
    by right.
  - exists []. simpl. rewrite app_nil_r. repeat split; try lia; try done.
    by right.
Qed.

(** * The further properties on the example states *)

Lemma base_hooks_create : ∀ s, _on_create_hash (Hooks := base_hooks) s = [].
Proof. reflexivity. Qed.


Lemma setitem_getitem_witness :
  fst (ShadowSessionDict.__getitem__ (hooks := base_hooks) "b"
         (snd (ShadowSessionDict.__setitem__ (hooks := base_hooks) "b" "2" stored)))
  = Ok "2".
Proof.
  apply (setitem_getitem (hooks := base_hooks) "b" "2" stored).
  vm_compute. reflexivity.
Defined.

Lemma field_access_flags_witness :
  accessed (snd (ShadowSessionDict.__getitem__ (hooks := base_hooks) "zz" stored))
    = true
  ∧ modified (snd (ShadowSessionDict.__getitem__ (hooks := base_hooks) "zz" stored))
    = true.
Proof.
  apply (proj1 (field_access_flags (hooks := base_hooks) "zz" "1" stored)).
  reflexivity.
Defined.


Lemma getitem_fresh_witness :
  ∃ st',
    ShadowSessionDict.__getitem__ (hooks := base_hooks) "b" (opened tally)
      = (Raise (KeyError "b"), st')
    ∧ key st' = Some "k"
    ∧ cookie st' = <[SHADOW_KEY_NAME := "k"]> (cookie (opened tally))
    ∧ accessed st' = true ∧ modified st' = true
    ∧ store st' = store (opened tally)
    ∧ store st' !! "k" = None.
Proof.
  apply (getitem_fresh (hooks := base_hooks) (opened tally) "k" "b"
           base_hooks_create); try (vm_compute; reflexivity).
Defined.

Lemma regenerate_key_missing_record_witness :
  ∃ st',
    ShadowSessionDict.regenerate_key (hooks := base_hooks) orphaned
      = (Raise (ResponseError "ERR no such key"), st')
    ∧ key st' = Some "k"
    ∧ cookie st' = cookie orphaned
    ∧ modified st' = modified orphaned
    ∧ store st' = store orphaned.
Proof.
  apply (regenerate_key_missing_record (hooks := base_hooks) orphaned "old" "k");
    try (vm_compute; reflexivity).
  intros H. vm_compute in H. discriminate.
Defined.

Lemma create_hash_restores_store_witness :
  store (snd (ShadowSessionDict._create_hash (hooks := base_hooks) crowded))
    = store crowded.
Proof.
  apply (create_hash_restores_store (hooks := base_hooks) crowded
           base_hooks_create eq_refl).
  right. vm_compute. reflexivity.
Defined.

Lemma exists_live_record_witness :
  ∃ st',
    ShadowSessionDict.exists_ stored = (Ok true, st')
    ∧ objects st' = objects stored
    ∧ store st' = store stored
    ∧ trace st' = trace stored ++ [Cmd (EXISTS "old")].
Proof.
  apply (exists_live_record stored "old"
           (Entry (RHash {[ "a" := "1" ]}) (Some 3600))); reflexivity.
Defined.

Lemma delitem_last_field_witness :
  ∃ st',
    (ShadowSessionDict.__delitem__ (hooks := base_hooks) "a" ;;;
     ShadowSessionDict.exists_) stored = (Ok false, st')
    ∧ key st' = None
    ∧ cookie st' = delete SHADOW_KEY_NAME (cookie stored)
    ∧ store st' = delete "old" (store stored).
Proof.
  apply (delitem_last_field (hooks := base_hooks) stored "old" "a"
           {[ "a" := "1" ]} (Some 3600)); try (vm_compute; reflexivity).
Defined.

Lemma delete_then_write_witness :
  ∃ st',
    (ShadowSessionDict.delete_ ;;;
     ShadowSessionDict.__setitem__ (hooks := base_hooks) "b" "2") stored
      = (Ok tt, st')
    ∧ key st' = Some "k"
    ∧ cookie st' !! SHADOW_KEY_NAME = Some "k"
    ∧ store st'
      = <[ "k" := Entry (RHash {[ "b" := "2" ]}) None ]>
          (delete "old" (store stored))
    ∧ ("k" ≠ "old" → store st' !! "old" = None).
Proof.
  apply (delete_then_write (hooks := base_hooks) stored "old" "k" "b" "2"
           base_hooks_create); try (vm_compute; reflexivity).
Defined.

Lemma legacy_delete_keeps_key_witness :
  ∃ st1 st2,
    Legacy.delete_ stored = (Ok tt, st1)
    ∧ key st1 = Some "old"
    ∧ store st1 !! "old" = None
    ∧ Legacy.__setitem__ RedisDict._check_state "b" "2" st1 = (Ok tt, st2)
    ∧ key st2 = Some "old"
    ∧ store st2 !! "old" = Some (Entry (RHash {[ "b" := "2" ]}) None)
    ∧ cookie st2 !! SHADOW_KEY_NAME = None.
Proof.
  apply (legacy_delete_keeps_key RedisDict._check_state stored "old" "b" "2");
    try reflexivity.
  intros s Hr _. unfold RedisDict._check_state. rewrite Hr. reflexivity.
Defined.

Lemma untouched_request_witness :
  ∃ st',
    (ShadowSessionInterface.open_session (hooks := base_hooks)
       unit decode_empty plain_interface default_app tt ;;;
     ShadowSessionInterface.save_session (hooks := base_hooks) save_cookie_only
       plain_interface default_app) (constructed tally)
      = (Ok tt, st')
    ∧ trace st' = trace (constructed tally)
    ∧ store st' = store (constructed tally)
    ∧ cookie st' = <["_permanent" := "False"]> ∅
    ∧ modified st' = true.
Proof.
  apply (untouched_request (hooks := base_hooks) unit decode_empty
           save_cookie_only plain_interface default_app tt ∅ (constructed tally));
    reflexivity.
Defined.


Lemma forced_field_round_trip_witness :
  fst (ShadowSession.__getitem__ (hooks := base_hooks) "_flashes"
         (snd (ShadowSession.__setitem__ (hooks := base_hooks) "_flashes" "hello"
                 (opened tally))))
  = Ok "hello".
Proof.
  apply (forced_field_round_trip (hooks := base_hooks) "_flashes" "hello"
           (opened tally)).
  - apply forced_fields. reflexivity.
  - vm_compute. reflexivity.
Defined.

Lemma shadow_pop_stored_witness :
  ∃ st',
    ShadowSessionDict.pop (hooks := base_hooks) "a" None stored = (Ok "1", st')
    ∧ fst (ShadowSessionDict.__contains__ (hooks := base_hooks) "a" st')
      = Ok false
    ∧ fst (ShadowSessionDict.__len__ (hooks := base_hooks) st')
      = Ok (Z.of_nat (size ({[ "a" := "1" ]} : gmap string string)) - 1)
    ∧ accessed st' = true.
Proof.
  apply (shadow_pop_stored (hooks := base_hooks) stored "old" "a" "1"
           {[ "a" := "1" ]} (Some 3600) None); reflexivity.
Defined.

Lemma create_hash_traffic_witness :
  ∃ cmds rest,
    trace (snd (ShadowSessionDict._create_hash (hooks := base_hooks) crowded))
      = trace crowded ++ (Cmd <$> cmds) ++ rest
    ∧ (length cmds ≤ 300)%nat
    ∧ ((∃ p, rest = [Pipeline p]) ∨ rest = []).
Proof.
  apply (create_hash_traffic (hooks := base_hooks) crowded). reflexivity.
Defined.
